(** * Static HMC, the unit-metric NUTS criterion and ADVI: a shallow embedding

    The C++ sources embedded here are
      - [stan/mcmc/hmc/static/base_static_hmc.hpp]
      - [stan/mcmc/hmc/nuts/unit_e_nuts.hpp]
      - [stan/variational/advi.hpp]

    C++ [double] is IEEE-754 binary64.  It is modelled by the executable
    specification of binary floating point of the Standard Library
    ([SpecFloat], precision 53, maximal exponent 1024), so that comparisons
    with NaN, infinities, rounding and the conversions to and from [int]
    behave as they do in the compiled program. *)

From Stdlib Require Import ZArith Bool List String Lia SpecFloat Permutation Sorted.
Import ListNotations.

Local Open Scope string_scope.
Local Open Scope list_scope.
Local Open Scope Z_scope.

(* ================================================================== *)
(** ** IEEE-754 binary64 *)
(* ================================================================== *)

Module IEEE.

Definition prec : Z := 53.
Definition emax : Z := 1024.

Definition double : Type := spec_float.

Definition dadd : double -> double -> double := SFadd prec emax.
Definition dsub : double -> double -> double := SFsub prec emax.
Definition dmul : double -> double -> double := SFmul prec emax.
Definition ddiv : double -> double -> double := SFdiv prec emax.
Definition dsqrt : double -> double := SFsqrt prec emax.
Definition dabs : double -> double := SFabs.
Definition dopp : double -> double := SFopp.

(** [a < b], [a <= b], [a > b]; every comparison with NaN is false. *)
Definition dlt (a b : double) : bool := SFltb a b.
Definition dle (a b : double) : bool := SFleb a b.
Definition dgt (a b : double) : bool := SFltb b a.

(** [boost::math::isnan] *)
Definition isnan (x : double) : bool :=
  match x with S754_nan => true | _ => false end.

(** [boost::math::isfinite] as used by [stan::math::check_finite] *)
Definition isfinite (x : double) : bool :=
  match x with
  | S754_zero _ | S754_finite _ _ _ => true
  | _ => false
  end.

Definition NaN : double := S754_nan.
(** [std::numeric_limits<double>::infinity()] *)
Definition infinity : double := S754_infinity false.
Definition neg_infinity : double := S754_infinity true.
Definition dzero : double := S754_zero false.

(** Conversion [int -> double] (exact for every 32-bit [int]). *)
Definition of_int (z : Z) : double := binary_normalize prec emax z 0 false.

Definition done : double := of_int 1.
Definition dtwo : double := of_int 2.

(** [std::numeric_limits<double>::max()] and [::min()] *)
Definition DBL_MAX : double := S754_finite false (2 ^ 53 - 1) 971.
Definition DBL_MIN : double := S754_finite false (2 ^ 52) (-1074).

(** Decimal literals of the sources, as the nearest binary64 value:
    numerator / denominator, correctly rounded by [SFdiv]. *)
Definition lit (num den : Z) : double := ddiv (of_int num) (of_int den).

Definition INT_MAX : Z := 2147483647.
Definition INT_MIN : Z := -2147483648.

(** Integer part of a finite double: rounding toward zero ([dtrunc]) and
    toward minus infinity ([dfloor]), toward plus infinity ([dceil]).  The
    value of [S754_finite s m e] is [(-1)^s * m * 2^e]; [Z.shiftl] with a
    negative amount is the flooring right shift. *)
Definition dtrunc (x : double) : option Z :=
  match x with
  | S754_zero _ => Some 0
  | S754_finite s m e => Some (cond_Zopp s (Z.shiftl (Zpos m) e))
  | _ => None
  end.

Definition dfloor (x : double) : option Z :=
  match x with
  | S754_zero _ => Some 0
  | S754_finite s m e => Some (Z.shiftl (cond_Zopp s (Zpos m)) e)
  | _ => None
  end.

Definition dceil (x : double) : option Z :=
  match x with
  | S754_zero _ => Some 0
  | S754_finite s m e => Some (- Z.shiftl (cond_Zopp (negb s) (Zpos m)) e)
  | _ => None
  end.

(** [static_cast<int>(x)]: the fractional part is discarded; the
    behaviour is undefined ([None]) when the truncated value is not
    representable in [int], in particular for NaN and the infinities. *)
Definition static_cast_int (x : double) : option Z :=
  match dtrunc x with
  | Some z => if (INT_MIN <=? z) && (z <=? INT_MAX) then Some z else None
  | None => None
  end.

(** [std::max(a, b)] is [(a < b) ? b : a]. *)
Definition std_max (a b : double) : double := if dlt a b then b else a.

(** The zeros, infinities and finite numbers of sign [s]: the possible
    results of rounding a magnitude given that sign. *)
Inductive rounded (s : bool) : double -> Prop :=
| rounded_zero : rounded s (S754_zero s)
| rounded_infinity : rounded s (S754_infinity s)
| rounded_finite m e : rounded s (S754_finite s m e).

(** A positive double in normal form: a mantissa of exactly 53 digits, and
    an exponent between [lo] and [hi]. *)
Definition normal (x : double) (lo hi : Z) : Prop :=
  exists m e, x = S754_finite false m e
              /\ Z.pos (digits2_pos m) = 53 /\ lo <= e <= hi.

End IEEE.

Import IEEE.

(* ================================================================== *)
(** ** Static-length HMC: [base_static_hmc.hpp] *)
(* ================================================================== *)

Module Hmc.

(** [ps_point]: position, momentum, cached potential and its gradient. *)
Record ps_point : Type := mk_ps_point {
  q : list double;
  p : list double;
  V : double;
  g : list double
}.

(** [stan::mcmc::sample]: continuous parameters, log density and the
    acceptance statistic. *)
Record sample : Type := mk_sample {
  cont_params : list double;
  log_prob : double;
  accept_probability : double
}.

Section Sampler.

(** The base random number generator, threaded explicitly. *)
Variable RNG : Type.

(** The fields of [base_hmc] that [base_static_hmc] reads and writes,
    followed by the two fields [base_static_hmc] adds. *)
Record base_static_hmc : Type := mk_sampler {
  z_ : ps_point;
  nom_epsilon_ : double;
  epsilon_ : double;
  rand_ : RNG;
  T_ : double;
  L_ : Z
}.

(** *** The setters and [update_L_] *)

(** [L_ = static_cast<int>(T_ / this->nom_epsilon_); L_ = L_ < 1 ? 1 : L_;] *)
Definition update_L_ (s : base_static_hmc) : option base_static_hmc :=
  match static_cast_int (ddiv (T_ s) (nom_epsilon_ s)) with
  | Some l =>
      Some (mk_sampler (z_ s) (nom_epsilon_ s) (epsilon_ s) (rand_ s)
              (T_ s) (if l <? 1 then 1 else l))
  | None => None
  end.

Definition set_nominal_stepsize_and_T (s : base_static_hmc) (e t : double)
  : option base_static_hmc :=
  if dgt e dzero && dgt t dzero then
    update_L_ (mk_sampler (z_ s) e (epsilon_ s) (rand_ s) t (L_ s))
  else Some s.

Definition set_nominal_stepsize_and_L (s : base_static_hmc) (e : double)
  (l : Z) : option base_static_hmc :=
  if dgt e dzero && (l >? 0) then
    Some (mk_sampler (z_ s) e (epsilon_ s) (rand_ s)
            (dmul e (of_int l)) l)
  else Some s.

Definition set_T (s : base_static_hmc) (t : double)
  : option base_static_hmc :=
  if dgt t dzero then
    update_L_ (mk_sampler (z_ s) (nom_epsilon_ s) (epsilon_ s) (rand_ s)
                 t (L_ s))
  else Some s.

Definition set_nominal_stepsize (s : base_static_hmc) (e : double)
  : option base_static_hmc :=
  if dgt e dzero then
    update_L_ (mk_sampler (z_ s) e (epsilon_ s) (rand_ s) (T_ s) (L_ s))
  else Some s.

Definition get_T (s : base_static_hmc) : double := T_ s.
Definition get_L (s : base_static_hmc) : Z := L_ s.

(** A call of one of the four setters, with its arguments. *)
Inductive setter_call : Type :=
| call_set_nominal_stepsize_and_T (e t : double)
| call_set_nominal_stepsize_and_L (e : double) (l : Z)
| call_set_T (t : double)
| call_set_nominal_stepsize (e : double).

Definition run_setter (s : base_static_hmc) (c : setter_call)
  : option base_static_hmc :=
  match c with
  | call_set_nominal_stepsize_and_T e t => set_nominal_stepsize_and_T s e t
  | call_set_nominal_stepsize_and_L e l => set_nominal_stepsize_and_L s e l
  | call_set_T t => set_T s t
  | call_set_nominal_stepsize e => set_nominal_stepsize s e
  end.

(** Some argument of the call is [<= 0]. *)
Definition has_nonpositive_argument (c : setter_call) : bool :=
  match c with
  | call_set_nominal_stepsize_and_T e t => dle e dzero || dle t dzero
  | call_set_nominal_stepsize_and_L e l => dle e dzero || (l <=? 0)
  | call_set_T t => dle t dzero
  | call_set_nominal_stepsize e => dle e dzero
  end.

(** *** The collaborators of [transition]

    [base_hmc], the Hamiltonian, the integrator and [std::exp] are not
    part of the sources embedded here; they are parameters. *)

(** [base_hmc::sample_stepsize]: the step actually used, from the
    nominal one (a wrapper may jitter it with the generator). *)
Variable sample_stepsize : double -> RNG -> double * RNG.

(** The Hamiltonian [H<M, BaseRNG>]. *)
Variable sample_p : ps_point -> RNG -> ps_point * RNG.
Variable init : ps_point -> ps_point.
Variable H : ps_point -> double.
Variable V_of : ps_point -> double.

(** The integrator [I<H<...>>::evolve(z, hamiltonian, epsilon)]. *)
Variable evolve : ps_point -> double -> ps_point.

(** [rand_uniform_()], a draw from [0, 1). *)
Variable rand_uniform : RNG -> double * RNG.

(** [std::exp] *)
Variable exp : double -> double.

(** Modelled from the spec: [base_hmc::seed], which is not in the
    sources ("Copy init_sample.q into z.q"). *)
Definition seed (z : ps_point) (q0 : list double) : ps_point :=
  mk_ps_point q0 (p z) (V z) (g z).

(** [for (int i = 0; i < L_; ++i) evolve(z_, hamiltonian_, epsilon_)] *)
Fixpoint evolve_n (n : nat) (z : ps_point) (eps : double) : ps_point :=
  match n with
  | O => z
  | S n' => evolve_n n' (evolve z eps) eps
  end.

Definition transition (s : base_static_hmc) (init_sample : sample)
  : sample * base_static_hmc :=
  let '(eps, r) := sample_stepsize (nom_epsilon_ s) (rand_ s) in
  let z := seed (z_ s) (cont_params init_sample) in
  let '(z, r) := sample_p z r in
  let z := init z in
  let z_init := z in
  let H0 := H z in
  let z := evolve_n (Z.to_nat (L_ s)) z eps in
  let h := H z in
  let h := if isnan h then infinity else h in
  let acceptProb := exp (dsub H0 h) in
  let '(z, r) :=
    if dlt acceptProb done then
      let '(u, r) := rand_uniform r in
      if dgt u acceptProb then (z_init, r) else (z, r)
    else (z, r) in
  let acceptProb := if dgt acceptProb done then done else acceptProb in
  (mk_sample (q z) (dopp (V_of z)) acceptProb,
   mk_sampler z (nom_epsilon_ s) eps r (T_ s) (L_ s)).

(** *** Observers of one transition

    The intermediate values of [transition], named so that statements
    can refer to them. *)

(** The point after [seed], [sample_p] and [init]: the snapshot
    [z_init], with the generator state at that moment. *)
Definition start (s : base_static_hmc) (init_sample : sample)
  : ps_point * RNG :=
  let '(_, r) := sample_stepsize (nom_epsilon_ s) (rand_ s) in
  let '(z, r) := sample_p (seed (z_ s) (cont_params init_sample)) r in
  (init z, r).

(** The end of the trajectory. *)
Definition proposal (s : base_static_hmc) (init_sample : sample)
  : ps_point :=
  evolve_n (Z.to_nat (L_ s)) (fst (start s init_sample))
    (fst (sample_stepsize (nom_epsilon_ s) (rand_ s))).

Definition H0_of (s : base_static_hmc) (init_sample : sample) : double :=
  H (fst (start s init_sample)).

(** [h] as first computed, before the NaN test. *)
Definition h_of (s : base_static_hmc) (init_sample : sample) : double :=
  H (proposal s init_sample).

(** [acceptProb] as first computed: [std::exp(H0 - h)]. *)
Definition acceptProb_of (s : base_static_hmc) (init_sample : sample)
  : double :=
  let h := h_of s init_sample in
  exp (dsub (H0_of s init_sample) (if isnan h then infinity else h)).

(** The uniform draw the Metropolis test would use. *)
Definition u_of (s : base_static_hmc) (init_sample : sample) : double :=
  fst (rand_uniform (snd (start s init_sample))).

(** The Metropolis test
    [acceptProb < 1 && this->rand_uniform_() > acceptProb]. *)
Definition rejects (s : base_static_hmc) (init_sample : sample) : bool :=
  dlt (acceptProb_of s init_sample) done
  && dgt (u_of s init_sample) (acceptProb_of s init_sample).

(** The state after a rejected proposal: the sampler's point is the
    snapshot and the sample carries the parameters it started from. *)
Definition restored (s : base_static_hmc) (init_sample : sample) : Prop :=
  z_ (snd (transition s init_sample)) = fst (start s init_sample)
  /\ cont_params (fst (transition s init_sample)) = cont_params init_sample.

(** *** What the collaborators promise *)

(** What the C standard fixes about [exp]: a NaN only from a NaN, never a
    negative value, and the values at the infinities. *)
Definition exp_range : Prop :=
  forall x, isnan x = false ->
            isnan (exp x) = false /\ dle dzero (exp x) = true.
Definition exp_neg_infinity : Prop := exp neg_infinity = dzero.
Definition exp_nan : Prop := exp NaN = NaN.

(** What the Hamiltonian promises about the position: [sample_p] draws a
    momentum and [init] caches the potential and its gradient. *)
Definition position_kept : Prop :=
  (forall z r, q (fst (sample_p z r)) = q z) /\ (forall z, q (init z) = q z).

(** *** The constructor and the reported parameters *)

(** [base_static_hmc(m, rng, writer)]: after [base_hmc]'s constructor has
    set the point, the step sizes and the generator (given here), [T_] is
    1 and [update_L_] sets [L_], which the declaration leaves
    uninitialised. *)
Definition base_static_hmc_new (z : ps_point) (nom_epsilon epsilon : double)
  (r : RNG) : option base_static_hmc :=
  update_L_ (mk_sampler z nom_epsilon epsilon r done 0).

(** [names.push_back("stepsize__"); names.push_back("int_time__");] *)
Definition get_sampler_param_names (names : list string) : list string :=
  names ++ ["stepsize__"; "int_time__"].

(** [values.push_back(this->epsilon_); values.push_back(this->T_);] *)
Definition get_sampler_params (s : base_static_hmc) (values : list double)
  : list double :=
  values ++ [epsilon_ s; T_ s].

(** The samplers that the constructor and the four setters can produce. *)
Inductive configured : base_static_hmc -> Prop :=
| configured_new z nom_epsilon epsilon r s :
    base_static_hmc_new z nom_epsilon epsilon r = Some s -> configured s
| configured_set s c s' :
    configured s -> run_setter s c = Some s' -> configured s'.

(** The arguments of a call are C++ values: a [double] is a binary64
    number and an [int] has 32 bits. *)
Definition well_typed_call (c : setter_call) : bool :=
  match c with
  | call_set_nominal_stepsize_and_T e t =>
      valid_binary prec emax e && valid_binary prec emax t
  | call_set_nominal_stepsize_and_L e l =>
      valid_binary prec emax e && (INT_MIN <=? l) && (l <=? INT_MAX)
  | call_set_T t => valid_binary prec emax t
  | call_set_nominal_stepsize e => valid_binary prec emax e
  end.

(** The nominal step size and the integration time are both [> 0]. *)
Definition positive_settings (s : base_static_hmc) : Prop :=
  dgt (nom_epsilon_ s) dzero = true /\ dgt (T_ s) dzero = true.

End Sampler.

End Hmc.

(* ================================================================== *)
(** ** The U-turn criterion of the unit-metric NUTS: [unit_e_nuts.hpp] *)
(* ================================================================== *)

Module Nuts.

Import Hmc.

(** Eigen's [a - b] on vectors of one size, coefficient by coefficient. *)
Fixpoint vsub (a b : list double) : list double :=
  match a, b with
  | x :: a', y :: b' => dsub x y :: vsub a' b'
  | _, _ => []
  end.

(** Eigen's [a.dot(b)]: the sum of the products of the coefficients, taken
    here in index order. *)
Definition dot (a b : list double) : double :=
  fold_left (fun acc xy => dadd acc (dmul (fst xy) (snd xy)))
    (combine a b) dzero.

(** [unit_e_point] adds no field to [ps_point]. *)
Definition unit_e_point : Type := ps_point.

Definition compute_criterion (start : ps_point) (finish : unit_e_point)
  (rho : list double) : bool :=
  dgt (dot (p finish) (vsub rho (p finish))) dzero
  && dgt (dot (p start) (vsub rho (p start))) dzero.

(** The criterion in the words of the specification, written without
    the vector operations of the code.  The Euclidean inner product of
    two vectors of [n] coordinates is the sum of the products of their
    coordinates, [a_0 * b_0 + ... + a_(n-1) * b_(n-1)]; the momentum still
    to go has the coordinates [rho_i - p_i]; and the subtree continues
    when, at both end points, the inner product of the momentum with the
    momentum still to go is positive. *)
Definition positive (x : double) : Prop := dlt dzero x = true.

Definition coordinate (v : list double) (i : nat) : double := nth i v dzero.

Fixpoint euclidean_product (n : nat) (a b : nat -> double) : double :=
  match n with
  | O => dzero
  | S n' => dadd (euclidean_product n' a b) (dmul (a n') (b n'))
  end.

Definition still_to_go (rho p : list double) (i : nat) : double :=
  dsub (coordinate rho i) (coordinate p i).

Definition continues (p_start p_finish rho : list double) : Prop :=
  positive (euclidean_product (List.length rho) (coordinate p_finish)
              (still_to_go rho p_finish))
  /\ positive (euclidean_product (List.length rho) (coordinate p_start)
                 (still_to_go rho p_start)).

(** A zero of either sign, or NaN. *)
Definition zero_or_nan (x : double) : Prop :=
  match x with
  | S754_zero _ | S754_nan => True
  | S754_infinity _ | S754_finite _ _ _ => False
  end.

End Nuts.

(* ================================================================== *)
(** ** ADVI: [advi.hpp] *)
(* ================================================================== *)

Module Advi.

Definition vec : Type := list double.

(** *** Exceptions, output and the computation monad *)

(** The value a [stan::math] check reports. *)
Inductive value : Type :=
| VInt (z : Z)
| VDouble (d : double).

(** The exceptions that travel through [advi]: the [std::domain_error]
    and [std::invalid_argument] of the argument checks, built from the
    pieces handed to [stan::math::domain_error], and any other
    [std::exception] of the model. *)
Inductive exn : Type :=
| domain_error (function name : string) (y : value) (msg1 msg2 : string)
| invalid_argument (function name_i : string) (i : Z)
    (name_j : string) (j : Z)
| std_exception (what : string).

(** What is written to a stream with [<<]. *)
Inductive token : Type :=
| Str (s : string)
| Dbl (d : double)
| Int (z : Z)
| What (e : exn)
| Endl
| Flush.

(** A call returns, throws, has undefined behaviour, or the bound put on
    a loop of the model was too small. *)
Inductive outcome (A : Type) : Type :=
| Return (a : A)
| Throw (e : exn)
| Undefined
| OutOfFuel.

Arguments Return {A} a.
Arguments Throw {A} e.
Arguments Undefined {A}.
Arguments OutOfFuel {A}.

(** The call ended: it returned or it threw. *)
Definition ends {A : Type} (o : outcome A) : Prop :=
  match o with
  | Return _ | Throw _ => True
  | Undefined | OutOfFuel => False
  end.

(** The bound put on the loops of the model was not reached. *)
Definition within_fuel {A : Type} (o : outcome A) : Prop :=
  match o with
  | OutOfFuel => False
  | Return _ | Throw _ | Undefined => True
  end.

(** [boost::circular_buffer<double>]: a capacity and the stored items,
    oldest first. *)
Record circular_buffer : Type := mk_cb {
  capacity : nat;
  items : list double
}.

(** [push_back]: when full the oldest item is overwritten; a buffer of
    capacity zero stores nothing. *)
Definition push_back (cb : circular_buffer) (x : double) : circular_buffer :=
  match capacity cb with
  | O => cb
  | S _ =>
      if (List.length (items cb) <? capacity cb)%nat
      then mk_cb (capacity cb) (items cb ++ [x])
      else mk_cb (capacity cb) (tl (items cb) ++ [x])
  end.

(** [std::accumulate(begin, end, 0.0)] *)
Definition accumulate (l : list double) : double :=
  fold_left dadd l dzero.

(** [operator<] is a strict weak order on the items of [v], as the
    sorting algorithms of the C++ library require of their comparison:
    being incomparable must be transitive.  A NaN is incomparable with
    every item, so either no item is NaN or no item is below another. *)
Definition strict_weak_order (v : list double) : bool :=
  negb (existsb isnan v)
  || forallb (fun x => forallb (fun y => negb (dlt x y)) v) v.

(** [rel_difference_(double prev, double curr)] *)
Definition rel_difference_ (prev curr : double) : double :=
  ddiv (dabs (dsub curr prev)) (dabs prev).

Section Engine.

(** The base random number generator. *)
Variable RNG : Type.

(** What a call can change outside its arguments: the generator and
    the text written so far to the print and diagnostic streams. *)
Record world : Type := mk_world {
  rng : RNG;
  print_out : list token;
  diag_out : list (Z * double)
}.

Definition M (A : Type) : Type := world -> outcome A * world.

Definition ret {A : Type} (a : A) : M A := fun w => (Return a, w).

Definition bind {A B : Type} (c : M A) (k : A -> M B) : M B :=
  fun w =>
    match c w with
    | (Return a, w') => k a w'
    | (Throw e, w') => (Throw e, w')
    | (Undefined, w') => (Undefined, w')
    | (OutOfFuel, w') => (OutOfFuel, w')
    end.

Definition throw {A : Type} (e : exn) : M A := fun w => (Throw e, w).
Definition undefined {A : Type} : M A := fun w => (Undefined, w).
Definition out_of_fuel {A : Type} : M A := fun w => (OutOfFuel, w).

(** A pure value that may be an exception. *)
Definition lift {A : Type} (r : exn + A) : M A :=
  match r with
  | inl e => throw e
  | inr a => ret a
  end.

Definition of_option {A : Type} (o : option A) : M A :=
  match o with
  | Some a => ret a
  | None => undefined
  end.

(** The variational family [Q] and the model [M], template parameters
    of [advi], are not in the sources embedded here. *)
Variable Q : Type.
(** [Q(int dimension)] and [Q(const Eigen::VectorXd& cont_params)] *)
Variable Q_dim : Z -> Q.
Variable Q_params : vec -> Q.
Variable dimension : Q -> Z.
Variable sample : Q -> RNG -> vec * RNG.
Variable entropy : Q -> double.
(** [variational.calc_grad(elbo_grad, model_, cont_params_,
    n_monte_carlo_grad_, rng_, print_stream_)] *)
Variable calc_grad : Q -> vec -> Z -> RNG -> (exn + Q) * RNG.
Variable square : Q -> Q.
Variable sqrt : Q -> Q.
(** [+] and [+=], [double * Q], [Q / Q], [double + Q] *)
Variable Qadd : Q -> Q -> Q.
Variable Qscale : double -> Q -> Q.
Variable Qdiv : Q -> Q -> Q.
Variable Qadd_scalar : double -> Q -> Q.

(** [model_.num_params_r()] and
    [model_.template log_prob<false, true>(zeta, print_stream_)] *)
Variable num_params_r : Z.
Variable log_prob : vec -> exn + double.

(** [std::nth_element(v.begin(), v.begin() + n, v.end())] of the C++
    library, which is not in the sources embedded here: the range after
    the call. *)
Variable nth_element : list double -> nat -> list double.

(** What the C++ standard fixes about [std::nth_element] on a range on
    which [<] is a strict weak order: the items are rearranged, none is
    lost; no item from index [n] on is below an item before [n]; and the
    item at [n] is the one a sort would put there, so that no item after
    it is below it.  Which of several items that compare equivalent ends
    at [n] is left open. *)
Definition nth_element_contract : Prop :=
  forall (v : list double) (n : nat),
    strict_weak_order v = true -> (n < List.length v)%nat ->
    Permutation (nth_element v n) v
    /\ (forall i j : nat,
          (i <= n)%nat -> (n <= j)%nat -> (j < List.length v)%nat ->
          dlt (nth j (nth_element v n) dzero) (nth i (nth_element v n) dzero)
          = false).

(** [circ_buff_median_]: the buffer is copied to [v], [std::nth_element]
    rearranges [v] around index [n = v.size() / 2], and [v[n]] is
    returned.  The behaviour is undefined when [<] is not a strict weak
    order on the items, which [std::nth_element] requires, and when the
    buffer is empty, where [v[0]] does not exist. *)
Definition circ_buff_median_ (cb : circular_buffer) : option double :=
  let v := items cb in
  let n := (List.length v / 2)%nat in
  if strict_weak_order v && (n <? List.length v)%nat
  then nth_error (nth_element v n) n
  else None.

(** The members of an [advi] object; a stream pointer is either null
    ([false]) or not. *)
Record advi : Type := mk_advi {
  cont_params_ : vec;
  n_monte_carlo_grad_ : Z;
  n_monte_carlo_elbo_ : Z;
  eval_elbo_ : Z;
  n_posterior_samples_ : Z;
  print_stream_ : bool;
  out_stream_ : bool;
  diag_stream_ : bool
}.

(** [stan::math::check_positive], [check_nonnegative], [check_finite]
    and [check_size_match] *)
Definition check_positive_int (function name : string) (y : Z)
  : exn + unit :=
  if y >? 0 then inr tt
  else inl (domain_error function name (VInt y) "is " ", but must be > 0!").

Definition check_positive (function name : string) (y : double)
  : exn + unit :=
  if dgt y dzero then inr tt
  else inl (domain_error function name (VDouble y) "is "
              ", but must be > 0!").

Definition check_nonnegative (function name : string) (y : double)
  : exn + unit :=
  if dle dzero y then inr tt
  else inl (domain_error function name (VDouble y) "is "
              ", but must be >= 0!").

Definition check_finite (function name : string) (y : double)
  : exn + unit :=
  if isfinite y then inr tt
  else inl (domain_error function name (VDouble y) "is "
              ", but must be finite!").

Definition check_size_match (function name_i : string) (i : Z)
  (name_j : string) (j : Z) : exn + unit :=
  if i =? j then inr tt
  else inl (invalid_argument function name_i i name_j j).

(** The constructor: the three counts must be positive. *)
Definition advi_new (cont_params : vec)
  (n_monte_carlo_grad n_monte_carlo_elbo eval_elbo n_posterior_samples : Z)
  (print_stream output_stream diagnostic_stream : bool) : exn + advi :=
  let function := "stan::variational::advi" in
  match check_positive_int function
          "Number of Monte Carlo samples for gradients"
          n_monte_carlo_grad with
  | inl e => inl e
  | inr _ =>
  match check_positive_int function
          "Number of Monte Carlo samples for ELBO"
          n_monte_carlo_elbo with
  | inl e => inl e
  | inr _ =>
  match check_positive_int function
          "Number of posterior samples for output"
          n_posterior_samples with
  | inl e => inl e
  | inr _ =>
      inr (mk_advi cont_params n_monte_carlo_grad n_monte_carlo_elbo
             eval_elbo n_posterior_samples
             print_stream output_stream diagnostic_stream)
  end end end.

Variable this : advi.

(** Writing to the print stream, when there is one. *)
Definition printed (ts : list token) (w : world) : world :=
  if print_stream_ this
  then mk_world (rng w) (print_out w ++ ts) (diag_out w)
  else w.

Definition print (ts : list token) : M unit :=
  fun w => (Return tt, printed ts w).

(** [services::io::write_iteration_csv] on the diagnostic stream; the
    elapsed-time column, read from [clock()], is left out. *)
Definition write_diag (iter : Z) (elbo : double) : M unit :=
  fun w =>
    if diag_stream_ this
    then (Return tt,
          mk_world (rng w) (print_out w) (diag_out w ++ [(iter, elbo)]))
    else (Return tt, w).

(** The world once the generator has moved to [r]. *)
Definition drawn (r : RNG) (w : world) : world :=
  mk_world r (print_out w) (diag_out w).

(** A call that draws from [rng_]. *)
Definition with_rng {A : Type} (f : RNG -> A * RNG) : M A :=
  fun w =>
    let '(a, r) := f (rng w) in
    (Return a, drawn r w).

Definition error_msg (e : exn) : list token :=
  [ Endl;
    Str "Informational Message: The current sample evaluation ";
    Str "of the ELBO is ignored because of the following issue:";
    Endl;
    What e; Endl;
    Str "If this warning occurs often then your model may be ";
    Str "either severely ill-conditioned or misspecified.";
    Endl ].

(** [write_error_msg_(print_stream_, e)] *)
Definition write_error_msg_ (e : exn) : M unit := print (error_msg e).

Notation "x <- c ;; k" := (bind c (fun x => k))
  (at level 61, c at next level, right associativity).
Notation "' pat <- c ;; k" :=
  (bind c (fun x => match x with pat => k end))
  (at level 61, pat pattern, c at next level, right associativity).
Notation "c ;; k" := (bind c (fun _ => k))
  (at level 61, right associativity).

(** *** [calc_ELBO] *)

Definition calc_ELBO_function : string :=
  "stan::variational::advi::calc_ELBO".

(** The exception raised when too many evaluations were dropped. *)
Definition dropped_error : exn :=
  domain_error calc_ELBO_function
    "The number of dropped evaluations"
    (VInt (n_monte_carlo_elbo_ this))
    "has reached its maximum amount ("
    "). Your model may be either severely ill-conditioned or misspecified.".

(** The body of the [try] block up to the last statement that can
    throw: [log_prob], then [check_finite]. *)
Definition energy (zeta : vec) : exn + double :=
  match log_prob zeta with
  | inl e => inl e
  | inr energy_i =>
      match check_finite calc_ELBO_function "energy_i" energy_i with
      | inl e => inl e
      | inr _ => inr energy_i
      end
  end.

(** The first [k] draws from [variational], with the generator after
    them; the energies kept among draws, in order, and the exceptions of
    the draws dropped. *)
Fixpoint draws (k : nat) (variational : Q) (r : RNG) : list vec * RNG :=
  match k with
  | O => ([], r)
  | S k' =>
      let '(zeta, r) := sample variational r in
      let '(zetas, r) := draws k' variational r in
      (zeta :: zetas, r)
  end.

Definition kept (zetas : list vec) : list double :=
  flat_map (fun zeta => match energy zeta with
                        | inr energy_i => [energy_i]
                        | inl _ => []
                        end) zetas.

Definition dropped (zetas : list vec) : list exn :=
  flat_map (fun zeta => match energy zeta with
                        | inr _ => []
                        | inl e => [e]
                        end) zetas.

(** The model never yields a finite log density. *)
Definition never_finite : Prop :=
  forall zeta, match log_prob zeta with
               | inl _ => True
               | inr energy_i => isfinite energy_i = false
               end.

(** [while (i < n_monte_carlo_elbo_) { ... }] *)
Fixpoint calc_ELBO_loop (fuel : nat) (variational : Q)
  (i n_monte_carlo_drop : Z) (elbo : double) : M double :=
  if i <? n_monte_carlo_elbo_ this then
    match fuel with
    | O => out_of_fuel
    | S fuel' =>
        zeta <- with_rng (sample variational) ;;
        match energy zeta with
        | inr energy_i =>
            calc_ELBO_loop fuel' variational (i + 1) n_monte_carlo_drop
              (dadd elbo energy_i)
        | inl e =>
            write_error_msg_ e ;;
            let n_monte_carlo_drop := n_monte_carlo_drop + 1 in
            if n_monte_carlo_drop >=? n_monte_carlo_elbo_ this
            then throw dropped_error
            else calc_ELBO_loop fuel' variational i n_monte_carlo_drop
                   elbo
        end
    end
  else ret elbo.

(** Every turn of the loop increments [i] or [n_monte_carlo_drop], and
    both stop at [n_monte_carlo_elbo_]: twice that many turns are
    never all used. *)
Definition calc_ELBO (variational : Q) : M double :=
  elbo <- calc_ELBO_loop (Z.to_nat (2 * n_monte_carlo_elbo_ this))
            variational 0 0 dzero ;;
  let elbo := ddiv elbo (of_int (n_monte_carlo_elbo_ this)) in
  ret (dadd elbo (entropy variational)).

(** *** [calc_ELBO_grad] *)

Definition calc_ELBO_grad (variational elbo_grad : Q) : M Q :=
  let function := "stan::variational::advi::calc_ELBO_grad" in
  lift (check_size_match function
          "Dimension of elbo_grad" (dimension elbo_grad)
          "Dimension of variational q" (dimension variational)) ;;
  lift (check_size_match function
          "Dimension of variational q" (dimension variational)
          "Dimension of variables in model"
          (Z.of_nat (List.length (cont_params_ this)))) ;;
  r <- with_rng (calc_grad variational (cont_params_ this)
                   (n_monte_carlo_grad_ this)) ;;
  lift r.

(** *** The adaptive step

    The same statements open the body of the tuning loop and of the
    main loop: gradient, running preconditioner, scaled step. *)
Definition tau : double := of_int 1.
Definition pre_factor : double := lit 9 10.
Definition post_factor : double := lit 1 10.

Definition adaptive_update (eta : double) (iter : Z)
  (variational elbo_grad params_prop : Q) : M (Q * Q * Q) :=
  elbo_grad <- calc_ELBO_grad variational elbo_grad ;;
  let params_prop :=
    if iter =? 1 then Qadd params_prop (square elbo_grad)
    else Qadd (Qscale pre_factor params_prop)
           (Qscale post_factor (square elbo_grad)) in
  let eta_scaled := ddiv eta (dsqrt (of_int iter)) in
  let variational :=
    Qadd variational
      (Qdiv (Qscale eta_scaled elbo_grad)
         (Qadd_scalar tau (sqrt params_prop))) in
  ret (variational, elbo_grad, params_prop).

(** *** [tune] *)

(** [for (iter_tune = 1; iter_tune <= tuning_iterations; ++iter_tune)],
    with [n] turns left. *)
Fixpoint tune_iterations (n : nat) (iter_tune : Z) (eta : double)
  (variational elbo_grad params_prop : Q) : M (Q * Q * Q) :=
  match n with
  | O => ret (variational, elbo_grad, params_prop)
  | S n' =>
      ' (variational, elbo_grad, params_prop) <-
        adaptive_update eta iter_tune variational elbo_grad params_prop ;;
      tune_iterations n' (iter_tune + 1) eta
        variational elbo_grad params_prop
  end.

Definition tuning_iterations : Z := 50.

(** The announcement that opens every turn of the tuning loop. *)
Definition trying (eta : double) : list token :=
  [Str "ADVI TUNING: trying eta = "; Dbl eta; Str " for ";
   Int tuning_iterations; Str " iterations... "; Flush].

(** A turn of the tuning loop, entered in world [w] with step size [eta],
    measured [elbo] after its fifty steps. *)
Definition measured (eta : double) (variational elbo_grad params_prop : Q)
  (w : world) (variational' elbo_grad' params_prop' : Q) (elbo : double)
  (w' : world) : Prop :=
  exists w1,
    tune_iterations (Z.to_nat tuning_iterations) 1 eta
      variational elbo_grad params_prop (printed (trying eta) w)
    = (Return (variational', elbo_grad', params_prop'), w1)
    /\ calc_ELBO variational' w1 = (Return elbo, w').

(** [while (do_more_tuning) { ... } return eta_best;].  [variational]
    is a reference parameter: its last value is returned with the
    result.  [eta_best] is not initialised by its declaration. *)
Fixpoint tune_loop (fuel : nat) (elbo_init : double)
  (variational elbo_grad params_prop : Q)
  (eta : double) (eta_sequence : list double)
  (elbo_best : double) (eta_best : option double) : M (double * Q) :=
  match fuel with
  | O => out_of_fuel
  | S fuel' =>
      print (trying eta) ;;
      ' (variational, elbo_grad, params_prop) <-
        tune_iterations (Z.to_nat tuning_iterations) 1 eta
          variational elbo_grad params_prop ;;
      elbo <- calc_ELBO variational ;;
      if dlt elbo elbo_best && dgt elbo_best elbo_init then
        print [Str "SUCCESS. USING PREVIOUS ONE"; Endl; Endl] ;;
        eta_best <- of_option eta_best ;;
        ret (eta_best, Q_params (cont_params_ this))
      else
        match eta_sequence with
        | next :: rest =>
            print [Str "FAILED."; Endl] ;;
            tune_loop fuel' elbo_init
              (Q_params (cont_params_ this)) elbo_grad
              (Q_dim num_params_r)
              next rest elbo (Some eta)
        | [] =>
            if dgt elbo elbo_init then
              print [Str "SUCCESS. USING CURRENT ONE"; Endl; Endl] ;;
              ret (eta, Q_params (cont_params_ this))
            else
              if print_stream_ this then
                print [Str "FAILED."; Endl;
                       Str "ALL STEP SIZES FAILED."; Endl] ;;
                ret (dzero, variational)
              else
                tune_loop fuel' elbo_init
                  (Q_params (cont_params_ this)) elbo_grad
                  (Q_dim num_params_r)
                  eta [] elbo_best eta_best
        end
  end.

Definition eta_sequence_0 : list double :=
  [lit 100 100; lit 50 100; lit 10 100; lit 5 100; lit 1 100].

(** [fuel] bounds the turns of the [while] loop, which has no bound of
    its own. *)
Definition tune (fuel : nat) (variational : Q) : M (double * Q) :=
  let elbo_grad := Q_dim num_params_r in
  let params_prop := Q_dim num_params_r in
  match eta_sequence_0 with
  | [] => undefined
  | eta :: eta_sequence =>
      elbo_init <- calc_ELBO variational ;;
      let elbo_best := dopp DBL_MAX in
      tune_loop fuel elbo_init variational elbo_grad params_prop
        eta eta_sequence elbo_best None
  end.

(** *** [stochastic_gradient_ascent] *)

(** [static_cast<int>(std::max(0.1 * max_iterations
                                 / static_cast<double>(eval_elbo_), 2.0))] *)
Definition cb_size (max_iterations : Z) : option Z :=
  static_cast_int
    (std_max
       (ddiv (dmul (lit 1 10) (of_int max_iterations))
          (of_int (eval_elbo_ this)))
       dtwo).

(** The capacity in the words of the specification: the ceiling of
    [0.1 * max_iterations / eval_elbo], taken exactly, and at least 2. *)
Definition capacity_by_ceiling (max_iterations : Z) : Z :=
  Z.max (- ((- max_iterations) / (10 * eval_elbo_ this))) 2.

(** The convergence tracking variables. *)
Record tracking : Type := mk_tracking {
  elbo : double;
  elbo_best : double;
  elbo_prev : double;
  delta_elbo : double;
  delta_elbo_ave : double;
  delta_elbo_med : double;
  elbo_diff : circular_buffer;
  do_more_iterations : bool
}.

(** The block guarded by [iter_main % eval_elbo_ == 0]. *)
Definition convergence_check (tol_rel_obj : double) (iter_main : Z)
  (variational : Q) (t : tracking) : M tracking :=
  let elbo_prev := elbo t in
  elbo <- calc_ELBO variational ;;
  let elbo_best := if dgt elbo (elbo_best t) then elbo else elbo_best t in
  let delta_elbo := rel_difference_ elbo elbo_prev in
  let elbo_diff := push_back (elbo_diff t) delta_elbo in
  let delta_elbo_ave :=
    ddiv (accumulate (items elbo_diff))
      (of_int (Z.of_nat (List.length (items elbo_diff)))) in
  delta_elbo_med <- of_option (circ_buff_median_ elbo_diff) ;;
  print [Str "  "; Int iter_main; Str "  "; Dbl elbo; Str "  ";
         Dbl delta_elbo_ave; Str "  "; Dbl delta_elbo_med] ;;
  write_diag iter_main elbo ;;
  let do_more_iterations := do_more_iterations t in
  do_more_iterations <-
    (if dlt delta_elbo_ave tol_rel_obj
     then print [Str "   MEAN ELBO CONVERGED"] ;; ret false
     else ret do_more_iterations) ;;
  do_more_iterations <-
    (if dlt delta_elbo_med tol_rel_obj
     then print [Str "   MEDIAN ELBO CONVERGED"] ;; ret false
     else ret do_more_iterations) ;;
  (if dgt delta_elbo_med (lit 5 10) || dgt delta_elbo_ave (lit 5 10)
   then print [Str "   MAY BE DIVERGING... INSPECT ELBO"]
   else ret tt) ;;
  print [Endl] ;;
  (if negb do_more_iterations
      && dgt (dabs (dsub elbo elbo_best)) (lit 5 10)
   then print [Str "Informational Message: The ELBO at a previous ";
               Str "iteration is larger than the ELBO upon ";
               Str "convergence!"; Endl;
               Str "This means that the variational approximation has ";
               Str "not converged to the global optima."; Endl]
   else ret tt) ;;
  ret (mk_tracking elbo elbo_best elbo_prev delta_elbo delta_elbo_ave
         delta_elbo_med elbo_diff do_more_iterations).

Definition stop (t : tracking) : tracking :=
  mk_tracking (elbo t) (elbo_best t) (elbo_prev t) (delta_elbo t)
    (delta_elbo_ave t) (delta_elbo_med t) (elbo_diff t) false.

(** [while (do_more_iterations) { ... ++iter_main; }]; [%] by zero is
    undefined. *)
Fixpoint sga_loop (fuel : nat) (eta tol_rel_obj : double)
  (max_iterations iter_main : Z)
  (variational elbo_grad params_prop : Q) (t : tracking) : M Q :=
  match fuel with
  | O => out_of_fuel
  | S fuel' =>
      ' (variational, elbo_grad, params_prop) <-
        adaptive_update eta iter_main variational elbo_grad params_prop ;;
      t <- (if eval_elbo_ this =? 0 then undefined
            else if Z.rem iter_main (eval_elbo_ this) =? 0
                 then convergence_check tol_rel_obj iter_main
                        variational t
                 else ret t) ;;
      t <- (if iter_main =? max_iterations
            then print [Str "Informational Message: The maximum number of ";
                        Str "iterations is reached! The algorithm has not ";
                        Str "converged."; Endl;
                        Str "Values from this variational approximation are not ";
                        Str "guaranteed to be meaningful."; Endl] ;;
                 ret (stop t)
            else ret t) ;;
      if do_more_iterations t
      then sga_loop fuel' eta tol_rel_obj max_iterations (iter_main + 1)
             variational elbo_grad params_prop t
      else ret variational
  end.

(** The loop stops at the latest when [iter_main] reaches
    [max_iterations]: that many turns are enough.  The final
    [variational], a reference parameter, is the result. *)
Definition stochastic_gradient_ascent (variational : Q)
  (eta tol_rel_obj : double) (max_iterations : Z) : M Q :=
  let function := "stan::variational::advi.stochastic_gradient_ascent" in
  lift (check_nonnegative function "Eta stepsize" eta) ;;
  lift (check_positive function "Relative objective function tolerance"
          tol_rel_obj) ;;
  lift (check_positive_int function "Maximum iterations"
          max_iterations) ;;
  let elbo_grad := Q_dim num_params_r in
  let params_prop := Q_dim num_params_r in
  cb_size <- of_option (cb_size max_iterations) ;;
  let t := mk_tracking dzero (dopp DBL_MAX) DBL_MIN DBL_MAX DBL_MAX
             DBL_MAX (mk_cb (Z.to_nat cb_size) []) true in
  print [Str "  iter"; Str "       ELBO"; Str "   delta_ELBO_mean";
         Str "   delta_ELBO_med"; Str "   notes "; Endl] ;;
  sga_loop (Z.to_nat max_iterations) eta tol_rel_obj max_iterations 1
    variational elbo_grad params_prop t.

End Engine.

End Advi.

(* ================================================================== *)
(** ** Concrete collaborators

    Small executable models, Hamiltonians and variational families on
    which the samplers and the ADVI engine can be run. *)
(* ================================================================== *)

Module Scripted.

Import Hmc.

(** A generator that hands out a prepared list of values, then zeros. *)
Definition RNG : Type := list double.

Definition next (r : RNG) : double * RNG :=
  match r with
  | [] => (dzero, [])
  | x :: r' => (x, r')
  end.

Fixpoint draw (n : nat) (r : RNG) : list double * RNG :=
  match n with
  | O => ([], r)
  | S n' =>
      let '(x, r) := next r in
      let '(xs, r) := draw n' r in
      (x :: xs, r)
  end.

Fixpoint map2 (f : double -> double -> double) (a b : list double)
  : list double :=
  match a, b with
  | x :: a', y :: b' => f x y :: map2 f a' b'
  | _, _ => []
  end.

(** [std::exp] at NaN, the infinities and zero as the C standard fixes
    it (Annex F); at other arguments only the side of one on which the
    value lies is kept. *)
Definition exp_coarse (x : double) : double :=
  match x with
  | S754_nan => NaN
  | S754_infinity false => infinity
  | S754_infinity true => dzero
  | S754_zero _ => done
  | S754_finite true _ _ => lit 1 2
  | S754_finite false _ _ => dtwo
  end.

(** No step-size jitter. *)
Definition sample_stepsize (nom : double) (r : RNG) : double * RNG :=
  (nom, r).

Section UnitMetric.

(** The model: potential [V = - log pi] and its gradient. *)
Variable potential : list double -> double.
Variable gradient : list double -> list double.

(** Modelled from the spec: the unit-metric Hamiltonian, which is not
    in the sources ("Unit: p ~ N(0, I)", "T(z): Unit 1/2 p^T p",
    "init(z): evaluates V and grad V at z.q, caching into z",
    "H(z) = T(z) + V(z)"). *)
Definition sample_p (z : ps_point) (r : RNG) : ps_point * RNG :=
  let '(ps, r) := draw (List.length (q z)) r in
  (mk_ps_point (q z) ps (V z) (g z), r).

Definition init (z : ps_point) : ps_point :=
  mk_ps_point (q z) (p z) (potential (q z)) (gradient (q z)).

Definition T (z : ps_point) : double :=
  dmul (lit 1 2) (Nuts.dot (p z) (p z)).

Definition H (z : ps_point) : double := dadd (T z) (V z).

Definition V_of (z : ps_point) : double := V z.

(** Modelled from the spec: the leapfrog integrator, which is not in
    the sources (half kick, drift, new potential and gradient, half
    kick). *)
Definition evolve (z : ps_point) (eps : double) : ps_point :=
  let half := dmul (lit 1 2) eps in
  let p1 := map2 (fun pi gi => dsub pi (dmul half gi)) (p z) (g z) in
  let q1 := map2 (fun qi pi => dadd qi (dmul eps pi)) (q z) p1 in
  let z1 := init (mk_ps_point q1 p1 (V z) (g z)) in
  let p2 := map2 (fun pi gi => dsub pi (dmul half gi)) p1 (g z1) in
  mk_ps_point (q z1) p2 (V z1) (g z1).

Definition transition_run :=
  Hmc.transition RNG sample_stepsize sample_p init H V_of evolve next
    exp_coarse.
Definition start_run := Hmc.start RNG sample_stepsize sample_p init.
Definition H0_run := Hmc.H0_of RNG sample_stepsize sample_p init H.
Definition h_run := Hmc.h_of RNG sample_stepsize sample_p init H evolve.
Definition acceptProb_run :=
  Hmc.acceptProb_of RNG sample_stepsize sample_p init H evolve exp_coarse.
Definition u_run := Hmc.u_of RNG sample_stepsize sample_p init next.
Definition rejects_run :=
  Hmc.rejects RNG sample_stepsize sample_p init H evolve next exp_coarse.
Definition restored_run :=
  Hmc.restored RNG sample_stepsize sample_p init H V_of evolve next
    exp_coarse.

End UnitMetric.

(** Three one-dimensional models.  [blocked]: the log density is minus
    infinity everywhere.  [wall]: standard normal up to 1/2, log density
    minus infinity beyond.  [spike]: standard normal up to 1/2, log
    density plus infinity beyond. *)
Definition half_square (qs : list double) : double :=
  dmul (lit 1 2) (Nuts.dot qs qs).

Definition beyond_half (qs : list double) : bool :=
  match qs with
  | x :: _ => dgt x (lit 1 2)
  | [] => false
  end.

Definition normal_potential (qs : list double) : double := half_square qs.
Definition normal_gradient (qs : list double) : list double := qs.

Definition blocked_potential (qs : list double) : double := infinity.

Definition wall_potential (qs : list double) : double :=
  if beyond_half qs then infinity else half_square qs.

Definition spike_potential (qs : list double) : double :=
  if beyond_half qs then neg_infinity else half_square qs.

(** A sampler at the origin with step size 1 and a single leapfrog step
    (T = 1), and the sample it starts from. *)
Definition sampler0 (r : RNG) : base_static_hmc RNG :=
  mk_sampler RNG (mk_ps_point [dzero] [dzero] dzero [dzero])
    done done r done 1.

Definition sample0 : sample := mk_sample [dzero] dzero dzero.

(** The generator will return 1/4 then 1/2, 1 then 1/2, 1 then 0. *)
Definition sampler_slow : base_static_hmc RNG := sampler0 [lit 1 4; lit 1 2].
Definition sampler_fast : base_static_hmc RNG := sampler0 [done; lit 1 2].
Definition sampler_fast_zero : base_static_hmc RNG := sampler0 [done; dzero].

(** *** A [std::nth_element] for [advi]

    A stable insertion sort of the whole range. *)
Fixpoint insert_sorted (x : double) (l : list double) : list double :=
  match l with
  | [] => [x]
  | y :: l' => if dlt y x then y :: insert_sorted x l' else x :: y :: l'
  end.

Definition sort (l : list double) : list double :=
  fold_right insert_sorted [] l.

Definition nth_element (v : list double) (n : nat) : list double := sort v.

(** *** A variational family for [advi]

    The location family: [Q] holds a mean vector, a draw is the mean
    plus noise from the generator, the entropy is constant. *)
Section Location.

(** The model: log density and its gradient. *)
Variable log_prob : list double -> Advi.exn + double.
Variable grad_log_prob : list double -> list double.

Definition Q : Type := list double.
Definition Q_dim (n : Z) : Q := repeat dzero (Z.to_nat n).
Definition Q_params (v : list double) : Q := v.
Definition dimension (v : Q) : Z := Z.of_nat (List.length v).

Definition sample (v : Q) (r : RNG) : list double * RNG :=
  let '(eps, r) := draw (List.length v) r in
  (map2 dadd v eps, r).

Definition entropy (v : Q) : double := dzero.

Definition calc_grad (v : Q) (cont_params : list double) (n : Z)
  (r : RNG) : (Advi.exn + Q) * RNG :=
  (inr (grad_log_prob v), r).

Definition square (v : Q) : Q := map (fun x => dmul x x) v.
Definition sqrt (v : Q) : Q := map dsqrt v.
Definition Qadd (a b : Q) : Q := map2 dadd a b.
Definition Qscale (c : double) (v : Q) : Q := map (dmul c) v.
Definition Qdiv (a b : Q) : Q := map2 ddiv a b.
Definition Qadd_scalar (c : double) (v : Q) : Q := map (dadd c) v.

Definition calc_ELBO (a : Advi.advi) :=
  Advi.calc_ELBO RNG Q sample entropy log_prob a.

Definition tune (a : Advi.advi) :=
  Advi.tune RNG Q Q_dim Q_params dimension sample entropy calc_grad
    square sqrt Qadd Qscale Qdiv Qadd_scalar 1 log_prob a.

Definition convergence_check (a : Advi.advi) :=
  Advi.convergence_check RNG Q sample entropy log_prob nth_element a.

Definition stochastic_gradient_ascent (a : Advi.advi) :=
  Advi.stochastic_gradient_ascent RNG Q Q_dim dimension sample entropy
    calc_grad square sqrt Qadd Qscale Qdiv Qadd_scalar 1 log_prob
    nth_element a.

End Location.

(** Three one-dimensional models for [advi].  [flat]: log density -1
    everywhere.  [undefined_model]: log density NaN everywhere.
    [identity]: the log density at [x] is [x]. *)
Definition flat_log_prob (zeta : list double) : Advi.exn + double :=
  inr (of_int (-1)).

Definition nan_log_prob (zeta : list double) : Advi.exn + double :=
  inr NaN.

Definition identity_log_prob (zeta : list double) : Advi.exn + double :=
  match zeta with
  | x :: _ => inr x
  | [] => inl (Advi.std_exception "empty parameter vector")
  end.

Definition zero_gradient (v : list double) : list double :=
  map (fun _ => dzero) v.

(** An [advi] object on one parameter with one Monte Carlo draw per
    estimate, with or without a print stream. *)
Definition advi1 (n_elbo : Z) (print_stream : bool) : Advi.advi :=
  Advi.mk_advi [dzero] 1 n_elbo 1 1 print_stream false false.

(** An [advi] object that evaluates the ELBO every [eval_elbo]
    iterations. *)
Definition advi_eval (eval_elbo : Z) : Advi.advi :=
  Advi.mk_advi [dzero] 1 1 eval_elbo 1 false false false.

Definition world0 (r : RNG) : Advi.world RNG := Advi.mk_world RNG r [] [].
Definition flat_world : Advi.world RNG := world0 [].

Definition minus_one : double := of_int (-1).

(** Noise that makes the estimates 0, then five times -1, then 1. *)
Definition noisy_draws : RNG :=
  [dzero; minus_one; minus_one; minus_one; minus_one; minus_one; done].

(** The tracking variables when the last ELBO measured was [elbo], with an
    empty buffer of capacity 2. *)
Definition tracking_at (elbo : double) : Advi.tracking :=
  Advi.mk_tracking elbo elbo DBL_MIN DBL_MAX DBL_MAX DBL_MAX
    (Advi.mk_cb 2 []) true.

End Scripted.

(* ================================================================== *)
(** ** Facts about binary64 arithmetic *)
(* ================================================================== *)

Module IEEEFacts.

(** Comparison is antisymmetric. *)
Lemma SFcompare_antisym (a b : double) (c : comparison) :
  SFcompare a b = Some c -> SFcompare b a = Some (CompOpp c).
Proof.
  destruct a as [sa | sa | | sa ma ea], b as [sb | sb | | sb mb eb];
    cbn; try discriminate;
    try (intros [= <-]; try destruct sa; try destruct sb; reflexivity).
  intros [= <-]. f_equal.
  rewrite (Z.compare_antisym ea eb).
  destruct sa, sb; cbn; try reflexivity;
    destruct (ea ?= eb); cbn; try reflexivity.
  - f_equal. symmetry. exact (Pos.compare_cont_antisym ma mb Eq).
  - symmetry. exact (Pos.compare_cont_antisym ma mb Eq).
Qed.

Lemma SFcompare_not_nan (a b : double) :
  isnan a = false -> isnan b = false -> exists c, SFcompare a b = Some c.
Proof.
  destruct a, b; cbn; try discriminate; intros _ _; eexists; reflexivity.
Qed.

(** Among numbers, [not (a < b)] is [b <= a]. *)
Lemma dlt_false_dle (a b : double) :
  isnan a = false -> isnan b = false -> dlt a b = false -> dle b a = true.
Proof.
  intros Ha Hb. unfold dlt, dle, SFltb, SFleb.
  destruct (SFcompare_not_nan a b Ha Hb) as [c Hc].
  rewrite Hc, (SFcompare_antisym _ _ _ Hc).
  destruct c; cbn; congruence.
Qed.

Lemma dle_not_gt (a b : double) : dle a b = true -> dgt a b = false.
Proof.
  unfold dle, dgt, SFleb, SFltb.
  destruct (SFcompare a b) as [c |] eqn:Hc; [| discriminate].
  rewrite (SFcompare_antisym _ _ _ Hc). destruct c; cbn; congruence.
Qed.

Lemma dlt_not_nan_l (a b : double) : dlt a b = true -> isnan a = false.
Proof. destruct a, b; cbn; congruence. Qed.

Lemma dlt_not_nan_r (a b : double) : dlt a b = true -> isnan b = false.
Proof. destruct a, b; cbn; congruence. Qed.

(** *** Rounding never invents a NaN or changes the sign *)

Lemma shr_1_nonneg (mrs : shr_record) :
  0 <= shr_m mrs -> 0 <= shr_m (shr_1 mrs).
Proof.
  destruct mrs as [m r s]; cbn.
  destruct m as [| [k | k |] | k]; cbn; lia.
Qed.

Lemma iter_shr_1_nonneg (n : positive) (mrs : shr_record) :
  0 <= shr_m mrs -> 0 <= shr_m (iter_pos shr_1 n mrs).
Proof.
  revert mrs. induction n as [n IH | n IH |]; intros mrs Hm; cbn.
  - apply IH, IH, shr_1_nonneg, Hm.
  - apply IH, IH, Hm.
  - apply shr_1_nonneg, Hm.
Qed.

Lemma shr_nonneg (mrs : shr_record) (e n : Z) :
  0 <= shr_m mrs -> 0 <= shr_m (fst (shr mrs e n)).
Proof.
  intros Hm. unfold shr. destruct n; cbn; auto using iter_shr_1_nonneg.
Qed.

Lemma shr_fexp_nonneg (m e : Z) (l : location) :
  0 <= m -> 0 <= shr_m (fst (shr_fexp prec emax m e l)).
Proof.
  intros Hm. unfold shr_fexp. apply shr_nonneg.
  destruct l as [| []]; cbn; exact Hm.
Qed.

Lemma round_nearest_even_nonneg (m : Z) (l : location) :
  0 <= m -> 0 <= round_nearest_even m l.
Proof.
  intros Hm. unfold round_nearest_even.
  destruct l as [| []]; try destruct (Z.even m); lia.
Qed.

Lemma binary_round_aux_rounded (s : bool) (m e : Z) (l : location) :
  0 <= m -> rounded s (binary_round_aux prec emax s m e l).
Proof.
  intros Hm. unfold binary_round_aux.
  pose proof (shr_fexp_nonneg m e l Hm) as H1.
  destruct (shr_fexp prec emax m e l) as [mrs' e'] eqn:E1. cbn in H1.
  pose proof (shr_fexp_nonneg _ e' loc_Exact
                (round_nearest_even_nonneg _ (loc_of_shr_record mrs') H1))
    as H2.
  destruct (shr_fexp prec emax _ e' loc_Exact) as [mrs'' e''] eqn:E2.
  cbn in H2.
  destruct (shr_m mrs'') as [| k | k]; try constructor.
  - destruct (e'' <=? emax - prec); constructor.
  - lia.
Qed.

Lemma rounded_not_nan (s : bool) (x : double) : rounded s x -> isnan x = false.
Proof. destruct 1; reflexivity. Qed.

Lemma binary_round_rounded (s : bool) (m : positive) (e : Z) :
  rounded s (binary_round prec emax s m e).
Proof.
  unfold binary_round.
  destruct (shl_align m e _) as [mz ez].
  apply binary_round_aux_rounded. lia.
Qed.

Lemma binary_normalize_not_nan (m e : Z) (s : bool) :
  isnan (binary_normalize prec emax m e s) = false.
Proof.
  destruct m; cbn; [reflexivity | |];
    eapply rounded_not_nan, binary_round_rounded.
Qed.

(** A finite number minus a number is a number. *)
Lemma dsub_finite_not_nan (a b : double) :
  isfinite a = true -> isnan b = false -> isnan (dsub a b) = false.
Proof.
  destruct a as [sa | sa | | sa ma ea], b as [sb | sb | | sb mb eb];
    cbn; try discriminate; intros _ _; try reflexivity.
  - destruct sa, sb; reflexivity.
  - apply binary_normalize_not_nan.
Qed.

(** The quotient of two positive numbers, when it is a number, is a
    zero, an infinity or a finite number of positive sign. *)
Lemma ddiv_positive (a b : double) :
  dlt dzero a = true -> dlt dzero b = true ->
  isnan (ddiv a b) = true \/ rounded false (ddiv a b).
Proof.
  destruct a as [sa | sa | | sa ma ea], b as [sb | sb | | sb mb eb];
    cbn; try discriminate;
    try destruct sa; try destruct sb; cbn; try discriminate; intros _ _;
    try (left; reflexivity); try (right; constructor).
  right.
  change (rounded false (SFdiv prec emax (S754_finite false ma ea)
                           (S754_finite false mb eb))).
  unfold SFdiv.
  destruct (SFdiv_core_binary prec emax (Z.pos ma) ea (Z.pos mb) eb)
    as [[mz ez] lz] eqn:E.
  apply binary_round_aux_rounded.
  unfold SFdiv_core_binary in E.
  destruct (Z.div_eucl _ (Z.pos mb)) as [q r] eqn:Ed in E.
  injection E as <- _ _.
  match type of Ed with Z.div_eucl ?n _ = _ =>
    assert (Hn : 0 <= n) by
      (destruct (_ - _ - _); [lia | apply Z.shiftl_nonneg; lia | lia]);
    pose proof (Z.div_pos n (Z.pos mb) Hn ltac:(lia)) as Hq;
    unfold Z.div in Hq; rewrite Ed in Hq
  end.
  exact Hq.
Qed.

End IEEEFacts.

(* ================================================================== *)
(** ** Rounding in the normal range *)
(* ================================================================== *)

Module RoundingFacts.

Import IEEEFacts.

(** *** The number of binary digits *)

Lemma digits2_pos_size (p : positive) : digits2_pos p = Pos.size p.
Proof. induction p as [p IH | p IH |]; cbn; congruence. Qed.

Lemma digits_bounds (p : positive) :
  2 ^ (Z.pos (digits2_pos p) - 1) <= Z.pos p < 2 ^ Z.pos (digits2_pos p).
Proof.
  rewrite digits2_pos_size.
  pose proof (Pos.size_gt p) as Hgt. pose proof (Pos.size_le p) as Hle.
  apply Pos2Z.pos_lt_pos in Hgt. apply Pos2Z.pos_le_pos in Hle.
  rewrite Pos2Z.inj_pow in Hgt, Hle.
  change (Z.pos p~0) with (2 * Z.pos p) in Hle.
  replace (Z.pos (Pos.size p)) with (Z.succ (Z.pos (Pos.size p) - 1)) in Hle
    by lia.
  rewrite Z.pow_succ_r in Hle by lia.
  split; [lia | exact Hgt].
Qed.

Lemma digits_unique (p : positive) (k : Z) :
  2 ^ (k - 1) <= Z.pos p < 2 ^ k -> Z.pos (digits2_pos p) = k.
Proof.
  intros [Hlo Hhi]. pose proof (digits_bounds p) as [Dlo Dhi].
  destruct (Z.lt_trichotomy (Z.pos (digits2_pos p)) k) as [Hlt | [Heq | Hgt]];
    [| exact Heq |].
  - assert (2 ^ Z.pos (digits2_pos p) <= 2 ^ (k - 1))
      by (apply Z.pow_le_mono_r; lia). lia.
  - assert (k <= 0 \/ 0 < k) as [Hk | Hk] by lia.
    + assert (2 ^ k <= 2 ^ 0) by (destruct k; cbn; try lia;
                                  rewrite Z.pow_neg_r; lia). cbn in *. lia.
    + assert (2 ^ k <= 2 ^ (Z.pos (digits2_pos p) - 1))
        by (apply Z.pow_le_mono_r; lia). lia.
Qed.

(** *** Shifting right *)

Lemma shr_1_div2 (mrs : shr_record) :
  0 <= shr_m mrs -> shr_m (shr_1 mrs) = shr_m mrs / 2.
Proof.
  destruct mrs as [m r s]; cbn [shr_m]. intros Hm.
  destruct m as [| [k | k |] | k]; cbn [shr_1 shr_m]; try lia;
    try reflexivity.
  - apply Z.div_unique with (r := 1); lia.
  - apply Z.div_unique with (r := 0); lia.
Qed.

Lemma iter_shr_1_div (n : positive) (mrs : shr_record) :
  0 <= shr_m mrs ->
  shr_m (iter_pos shr_1 n mrs) = shr_m mrs / 2 ^ Z.pos n.
Proof.
  revert mrs. induction n as [n IH | n IH |]; intros mrs Hm; cbn [iter_pos].
  - rewrite IH, IH, shr_1_div2
      by (try apply iter_shr_1_nonneg; try apply shr_1_nonneg; exact Hm).
    rewrite !Z.div_div by (try apply Z.pow_pos_nonneg; lia).
    f_equal. replace (Z.pos n~1) with (1 + Z.pos n + Z.pos n) by lia.
    rewrite !Z.pow_add_r, Z.pow_1_r by lia. lia.
  - rewrite IH, IH by (try apply iter_shr_1_nonneg; exact Hm).
    rewrite !Z.div_div by (try apply Z.pow_pos_nonneg; lia).
    f_equal. replace (Z.pos n~0) with (Z.pos n + Z.pos n) by lia.
    rewrite !Z.pow_add_r by lia. lia.
  - rewrite shr_1_div2 by exact Hm. reflexivity.
Qed.

Lemma shr_record_of_loc_m (m : Z) (l : location) :
  shr_m (shr_record_of_loc m l) = m.
Proof. destruct l as [| []]; reflexivity. Qed.

(** Shifting a number of [d >= 53] digits down to 53 digits. *)
Lemma shr_fexp_normal (m : positive) (e : Z) (l : location) :
  let d := Z.pos (digits2_pos m) in
  53 <= d -> -1074 <= e + d - 53 ->
  exists mrs,
    shr_fexp prec emax (Z.pos m) e l = (mrs, e + d - 53)
    /\ 2 ^ 52 <= shr_m mrs < 2 ^ 53.
Proof.
  intros d Hd He. unfold shr_fexp, fexp, emin, prec, emax. cbn [Zdigits2].
  fold d.
  replace (Z.max (d + e - 53) (3 - 1024 - 53) - e) with (d - 53) by lia.
  pose proof (digits_bounds m) as [Hlo Hhi]. fold d in Hlo, Hhi.
  unfold shr. destruct (d - 53) as [| n | n] eqn:En; try lia.
  - eexists. split; [f_equal; lia |].
    rewrite shr_record_of_loc_m. replace d with 53 in * by lia.
    cbn in Hlo. split; [exact Hlo | exact Hhi].
  - eexists. split; [f_equal; lia |].
    rewrite iter_shr_1_div by (rewrite shr_record_of_loc_m; lia).
    rewrite shr_record_of_loc_m.
    assert (Hd' : d = 53 + Z.pos n) by lia.
    rewrite Hd' in Hlo, Hhi.
    replace (53 + Z.pos n - 1) with (52 + Z.pos n) in Hlo by lia.
    rewrite Z.pow_add_r in Hlo, Hhi by lia.
    assert (0 < 2 ^ Z.pos n) by (apply Z.pow_pos_nonneg; lia).
    split.
    + apply Z.div_le_lower_bound; lia.
    + apply Z.div_lt_upper_bound; lia.
Qed.

(** Rounding a positive magnitude of at least 53 digits, when the result
    neither underflows nor overflows. *)
Lemma binary_round_aux_normal (m : positive) (e : Z) (l : location) :
  let d := Z.pos (digits2_pos m) in
  53 <= d -> -1074 <= e + d - 53 -> e + d - 53 < 971 ->
  normal (binary_round_aux prec emax false (Z.pos m) e l)
    (e + d - 53) (e + d - 52).
Proof.
  intros d Hd Hlo Hhi. unfold binary_round_aux.
  destruct (shr_fexp_normal m e l Hd Hlo) as (mrs & -> & Hm). fold d.
  set (m1 := round_nearest_even (shr_m mrs) (loc_of_shr_record mrs)).
  assert (Hm1 : 2 ^ 52 <= m1 <= 2 ^ 53).
  { unfold m1, round_nearest_even.
    destruct (loc_of_shr_record mrs) as [| []];
      try destruct (Z.even (shr_m mrs)); lia. }
  destruct m1 as [| p1 | p1] eqn:E1; try (cbn in Hm1; lia).
  destruct (Z.eq_dec (Z.pos p1) (2 ^ 53)) as [Htop | Htop].
  - change (2 ^ 53) with (Z.pos 9007199254740992) in Htop.
    injection Htop as ->.
    exists 4503599627370496%positive, (e + d - 52).
    split; [| split; [reflexivity | lia]].
    unfold shr_fexp, fexp, emin, prec, emax. cbn [Zdigits2].
    change (digits2_pos 9007199254740992) with 54%positive.
    replace (Z.max (54 + (e + d - 53) - 53) (3 - 1024 - 53) - (e + d - 53))
      with 1 by lia.
    cbn [shr shr_record_of_loc iter_pos shr_1 shr_m fst snd].
    replace (e + d - 53 + 1) with (e + d - 52) by lia.
    destruct (Z.leb_spec (e + d - 52) (1024 - 53)); [reflexivity | lia].
  - assert (Hd1 : Z.pos (digits2_pos p1) = 53)
      by (apply digits_unique; cbn in *; lia).
    exists p1, (e + d - 53).
    split; [| split; [exact Hd1 | lia]].
    unfold shr_fexp, fexp, emin, prec, emax. cbn [Zdigits2]. rewrite Hd1.
    replace (Z.max (53 + (e + d - 53) - 53) (3 - 1024 - 53) - (e + d - 53))
      with 0 by lia.
    cbn [shr shr_record_of_loc shr_m].
    destruct (Z.leb_spec (e + d - 53) (1024 - 53)); [reflexivity | lia].
Qed.

Lemma normal_weaken (x : double) (lo hi lo' hi' : Z) :
  normal x lo hi -> lo' <= lo -> hi <= hi' -> normal x lo' hi'.
Proof.
  intros (m & e & -> & Hd & He) Hlo Hhi. exists m, e.
  split; [reflexivity | split; [exact Hd | lia]].
Qed.

Lemma iter_xO_mul (p k : positive) :
  Z.pos (Pos.iter xO p k) = Z.pos p * 2 ^ Z.pos k.
Proof.
  induction k as [| k IH] using Pos.peano_ind.
  - cbn. lia.
  - rewrite Pos.iter_succ, Pos2Z.inj_xO, IH, Pos2Z.inj_succ, Z.pow_succ_r
      by lia. lia.
Qed.

(** The conversion of a positive [int] is exact and in normal form. *)
Lemma of_int_normal (z : Z) :
  0 < z <= INT_MAX -> normal (of_int z) (-52) (-21).
Proof.
  unfold INT_MAX. intros Hz.
  destruct z as [| p | p]; try lia.
  unfold of_int, binary_normalize, binary_round.
  pose proof (digits_bounds p) as [Hlo Hhi].
  set (d := Z.pos (digits2_pos p)) in *.
  assert (Hd : 1 <= d <= 31).
  { split; [unfold d; lia |].
    destruct (Z.le_gt_cases d 31) as [H | H]; [exact H |].
    assert (2 ^ 31 <= 2 ^ (d - 1)) by (apply Z.pow_le_mono_r; lia).
    change (2 ^ 31) with 2147483648 in *. lia. }
  unfold fexp, emin, prec, emax.
  replace (Z.max (d + 0 - 53) (3 - 1024 - 53)) with (d - 53) by lia.
  unfold shl_align.
  destruct (d - 53 - 0) as [| k | k] eqn:Ek; try lia.
  assert (Hmz : Z.pos (digits2_pos (Pos.iter xO p k)) = 53).
  { apply digits_unique. rewrite iter_xO_mul.
    assert (Hk : Z.pos k = 53 - d) by lia.
    assert (0 < 2 ^ Z.pos k) by (apply Z.pow_pos_nonneg; lia).
    replace 53 with (d + Z.pos k) by lia.
    replace (d + Z.pos k - 1) with (d - 1 + Z.pos k) by lia.
    rewrite !Z.pow_add_r by lia. nia. }
  pose proof (binary_round_aux_normal (Pos.iter xO p k) (d - 53) loc_Exact)
    as Hn.
  cbv zeta in Hn. rewrite Hmz in Hn.
  eapply normal_weaken; [apply Hn; lia | lia | lia].
Qed.

(** The product and the quotient of two doubles in normal form, away from
    underflow and overflow. *)
Lemma dmul_normal (x y : double) (lx hx ly hy : Z) :
  normal x lx hx -> normal y ly hy ->
  -1074 <= lx + ly + 52 -> hx + hy + 53 < 971 ->
  normal (dmul x y) (lx + ly + 52) (hx + hy + 54).
Proof.
  intros (mx & ex & -> & Hdx & Hex) (my & ey & -> & Hdy & Hey) Hlo Hhi.
  unfold dmul, SFmul. cbn [xorb].
  pose proof (digits_bounds mx) as [Hxl Hxh].
  pose proof (digits_bounds my) as [Hyl Hyh].
  rewrite Hdx in Hxl, Hxh. rewrite Hdy in Hyl, Hyh.
  change (2 ^ (53 - 1)) with (2 ^ 52) in *.
  assert (Hp : 2 ^ 104 <= Z.pos (mx * my) < 2 ^ 106).
  { rewrite Pos2Z.inj_mul.
    change (2 ^ 104) with (2 ^ 52 * 2 ^ 52).
    change (2 ^ 106) with (2 ^ 53 * 2 ^ 53).
    assert (0 < 2 ^ 52) by reflexivity. nia. }
  pose proof (digits_bounds (mx * my)) as [Dl Dh].
  set (d := Z.pos (digits2_pos (mx * my))) in *.
  assert (Hd : 105 <= d <= 106).
  { split.
    - destruct (Z.le_gt_cases 105 d) as [H | H]; [exact H |].
      assert (2 ^ d <= 2 ^ 104) by (apply Z.pow_le_mono_r; lia). lia.
    - destruct (Z.le_gt_cases d 106) as [H | H]; [exact H |].
      assert (2 ^ 106 <= 2 ^ (d - 1)) by (apply Z.pow_le_mono_r; lia). lia. }
  pose proof (binary_round_aux_normal (mx * my) (ex + ey) loc_Exact) as Hn.
  cbv zeta in Hn. fold d in Hn.
  eapply normal_weaken; [apply Hn; lia | lia | lia].
Qed.

Lemma SFdiv_core_binary_normal (mx my : positive) (ex ey : Z) :
  Z.pos (digits2_pos mx) = 53 -> Z.pos (digits2_pos my) = 53 ->
  -1074 <= ex - ey - 53 ->
  SFdiv_core_binary prec emax (Z.pos mx) ex (Z.pos my) ey
  = (Z.pos mx * 2 ^ 53 / Z.pos my, ex - ey - 53,
     new_location (Z.pos my) ((Z.pos mx * 2 ^ 53) mod Z.pos my)).
Proof.
  intros Hdx Hdy Hlo. unfold SFdiv_core_binary. cbn [Zdigits2].
  rewrite Hdx, Hdy.
  assert (He : Z.min (fexp prec emax (53 + ex - (53 + ey))) (ex - ey)
               = ex - ey - 53)
    by (unfold fexp, emin, prec, emax; lia).
  rewrite He.
  replace (ex - ey - (ex - ey - 53)) with 53 by lia.
  cbv iota. rewrite Z.shiftl_mul_pow2 by lia.
  unfold Z.div, Z.modulo.
  destruct (Z.div_eucl (Z.pos mx * 2 ^ 53) (Z.pos my)) as [q r].
  reflexivity.
Qed.

Lemma ddiv_normal (x y : double) (lx hx ly hy : Z) :
  normal x lx hx -> normal y ly hy ->
  -1074 <= lx - hy - 53 -> hx - ly - 52 < 971 ->
  normal (ddiv x y) (lx - hy - 53) (hx - ly - 51).
Proof.
  intros (mx & ex & -> & Hdx & Hex) (my & ey & -> & Hdy & Hey) Hlo Hhi.
  unfold ddiv, SFdiv. cbn [xorb].
  rewrite (SFdiv_core_binary_normal mx my ex ey Hdx Hdy) by lia.
  pose proof (digits_bounds mx) as [Hxl Hxh].
  pose proof (digits_bounds my) as [Hyl Hyh].
  rewrite Hdx in Hxl, Hxh. rewrite Hdy in Hyl, Hyh.
  change (2 ^ (53 - 1)) with (2 ^ 52) in *.
  set (q := Z.pos mx * 2 ^ 53 / Z.pos my).
  assert (Hqb : 2 ^ 52 <= q < 2 ^ 54).
  { unfold q. split.
    - apply Z.div_le_lower_bound; [lia |].
      change (2 ^ 53) with (2 * 2 ^ 52) in *.
      assert (0 < 2 ^ 52) by reflexivity. nia.
    - apply Z.div_lt_upper_bound; [lia |].
      change (2 ^ 54) with (2 * 2 ^ 53). change (2 ^ 53) with (2 * 2 ^ 52) in *.
      assert (0 < 2 ^ 52) by reflexivity. nia. }
  destruct q as [| pq | pq];
    try (change (2 ^ 52) with 4503599627370496 in Hqb; lia).
  pose proof (digits_bounds pq) as [Dl Dh].
  set (d := Z.pos (digits2_pos pq)) in *.
  assert (Hd : 53 <= d <= 54).
  { split.
    - destruct (Z.le_gt_cases 53 d) as [H | H]; [exact H |].
      assert (2 ^ d <= 2 ^ 52) by (apply Z.pow_le_mono_r; lia). lia.
    - destruct (Z.le_gt_cases d 54) as [H | H]; [exact H |].
      assert (2 ^ 54 <= 2 ^ (d - 1)) by (apply Z.pow_le_mono_r; lia). lia. }
  pose proof (binary_round_aux_normal pq (ex - ey - 53)
                (new_location (Z.pos my)
                   ((Z.pos mx * 2 ^ 53) mod Z.pos my))) as Hn.
  cbv zeta in Hn. fold d in Hn.
  eapply normal_weaken; [apply Hn; lia | lia | lia].
Qed.

End RoundingFacts.

(* ================================================================== *)
(** ** Static HMC: the step count and the setters *)
(* ================================================================== *)

Module SetterFacts.

Import Hmc IEEEFacts.

Section Setters.

Variable RNG : Type.
Implicit Types (s : base_static_hmc RNG) (e t : double).

Lemma update_L_spec s (n : Z) :
  static_cast_int (ddiv (T_ RNG s) (nom_epsilon_ RNG s)) = Some n ->
  exists s', update_L_ RNG s = Some s'
             /\ get_L RNG s' = Z.max 1 n
             /\ nom_epsilon_ RNG s' = nom_epsilon_ RNG s
             /\ get_T RNG s' = T_ RNG s.
Proof.
  intros Hc. unfold update_L_. rewrite Hc. eexists. split; [reflexivity |].
  cbn. repeat split. destruct (Z.ltb_spec n 1); lia.
Qed.

(** The integer part of the quotient of two positive doubles, when it fits
    in an [int], is what the cast returns. *)
Lemma static_cast_int_quotient e t (n : Z) :
  dlt dzero e = true -> dlt dzero t = true ->
  dfloor (ddiv t e) = Some n -> n <= INT_MAX ->
  static_cast_int (ddiv t e) = Some n.
Proof.
  intros He Ht Hn Hmax.
  destruct (ddiv_positive t e Ht He) as [Hnan | Hr].
  - destruct (ddiv t e); discriminate.
  - unfold static_cast_int. inversion Hr as [Hx | Hx | m k Hx];
      rewrite <- Hx in Hn; cbn in Hn; try discriminate.
    + injection Hn as <-. reflexivity.
    + injection Hn as <-. cbn [dtrunc cond_Zopp].
      assert (0 <= Z.shiftl (Z.pos m) k) by (apply Z.shiftl_nonneg; lia).
      unfold INT_MIN.
      destruct (Z.leb_spec (-2147483648) (Z.shiftl (Z.pos m) k)); [| lia].
      destruct (Z.leb_spec (Z.shiftl (Z.pos m) k) INT_MAX); [reflexivity | lia].
Qed.

(** C7, as amended: for a nominal step size [e > 0] and an integration
    time [t > 0] whose double quotient [t / e] has an integer part [n] that
    fits in an [int], [set_nominal_stepsize_and_T] (and [set_T] on a
    sampler whose nominal step size is [e], and [set_nominal_stepsize] on a
    sampler whose integration time is [t]) leaves [get_L() = max(1, n)]. *)
Theorem step_count_is_clamped_floor s e t (n : Z) :
  dlt dzero e = true -> dlt dzero t = true ->
  dfloor (ddiv t e) = Some n -> n <= INT_MAX ->
  option_map (get_L RNG) (set_nominal_stepsize_and_T RNG s e t)
    = Some (Z.max 1 n)
  /\ (nom_epsilon_ RNG s = e ->
      option_map (get_L RNG) (set_T RNG s t) = Some (Z.max 1 n))
  /\ (T_ RNG s = t ->
      option_map (get_L RNG) (set_nominal_stepsize RNG s e)
        = Some (Z.max 1 n)).
Proof.
  intros He Ht Hn Hmax.
  pose proof (static_cast_int_quotient e t n He Ht Hn Hmax) as Hc.
  unfold set_nominal_stepsize_and_T, set_T, set_nominal_stepsize.
  change (dgt e dzero) with (dlt dzero e).
  change (dgt t dzero) with (dlt dzero t).
  rewrite He, Ht. cbn [andb].
  repeat split; [| intros <- | intros <-];
    match goal with |- option_map _ (update_L_ _ ?s0) = _ =>
      destruct (update_L_spec s0 n Hc) as (s' & -> & HL & _)
    end; cbn [option_map]; rewrite HL; reflexivity.
Qed.

(** C10: a setter called with a non-positive argument returns normally
    and leaves the sampler, hence the nominal step size, [T] and [L],
    exactly as it was. *)
Theorem setter_with_nonpositive_argument_is_noop s (c : setter_call) :
  has_nonpositive_argument c = true ->
  run_setter RNG s c = Some s.
Proof.
  destruct c as [e t | e l | t | e]; cbn [has_nonpositive_argument run_setter];
    unfold set_nominal_stepsize_and_T, set_nominal_stepsize_and_L, set_T,
      set_nominal_stepsize; intros Hc.
  - apply orb_true_iff in Hc as [Hc | Hc];
      rewrite (dle_not_gt _ _ Hc); [| rewrite andb_false_r]; reflexivity.
  - apply orb_true_iff in Hc as [Hc | Hc].
    + rewrite (dle_not_gt _ _ Hc). reflexivity.
    + apply Z.leb_le in Hc.
      rewrite Z.gtb_ltb, (proj2 (Z.ltb_ge 0 l) Hc), andb_false_r.
      reflexivity.
  - rewrite (dle_not_gt _ _ Hc). reflexivity.
  - rewrite (dle_not_gt _ _ Hc). reflexivity.
Qed.

End Setters.

(** [e = 0.3], [T = 1.0] gives [L = 3]; [e = 2.0], [T = 1.0] gives
    [L = 1]. *)
Lemma step_count_witness :
  (dlt dzero (lit 3 10) = true /\ dlt dzero done = true
   /\ dfloor (ddiv done (lit 3 10)) = Some 3 /\ 3 <= INT_MAX
   /\ option_map (get_L _)
        (set_nominal_stepsize_and_T _ (Scripted.sampler0 []) (lit 3 10) done)
      = Some 3)
  /\ (dlt dzero dtwo = true
      /\ dfloor (ddiv done dtwo) = Some 0 /\ 0 <= INT_MAX
      /\ option_map (get_L _)
           (set_nominal_stepsize_and_T _ (Scripted.sampler0 []) dtwo done)
         = Some 1).
Proof.
  assert (H3 : 3 <= INT_MAX) by (unfold INT_MAX; lia).
  assert (H0 : 0 <= INT_MAX) by (unfold INT_MAX; lia).
  split.
  - split; [reflexivity |]. split; [reflexivity |]. split; [reflexivity |].
    split; [exact H3 |].
    exact (proj1 (step_count_is_clamped_floor Scripted.RNG
                    (Scripted.sampler0 []) (lit 3 10) done 3
                    eq_refl eq_refl eq_refl H3)).
  - split; [reflexivity |]. split; [reflexivity |]. split; [exact H0 |].
    exact (proj1 (step_count_is_clamped_floor Scripted.RNG
                    (Scripted.sampler0 []) dtwo done 0
                    eq_refl eq_refl eq_refl H0)).
Defined.

(** At [e = 1], [t = 2^31] both arguments are positive and the integer part
    of [t / e] is [2^31], which no [int] holds: the cast is undefined and
    [get_L()] is not [max(1, floor(t / e))]. *)
Lemma step_count_out_of_int_range :
  dlt dzero done = true /\ dlt dzero (of_int 2147483648) = true
  /\ dfloor (ddiv (of_int 2147483648) done) = Some 2147483648
  /\ option_map (get_L _)
       (set_nominal_stepsize_and_T _ (Scripted.sampler0 []) done
          (of_int 2147483648))
     <> Some (Z.max 1 2147483648).
Proof.
  repeat split; try reflexivity.
  vm_compute. discriminate.
Qed.

Lemma setter_noop_witness :
  has_nonpositive_argument
    (call_set_nominal_stepsize_and_T done (of_int (-2))) = true
  /\ run_setter _ (Scripted.sampler0 [])
       (call_set_nominal_stepsize_and_T done (of_int (-2)))
     = Some (Scripted.sampler0 []).
Proof.
  split; [reflexivity |].
  apply (setter_with_nonpositive_argument_is_noop Scripted.RNG
           (Scripted.sampler0 [])
           (call_set_nominal_stepsize_and_T done (of_int (-2)))).
  reflexivity.
Defined.

End SetterFacts.

(* ================================================================== *)
(** ** The unit-metric U-turn criterion *)
(* ================================================================== *)

Module NutsFacts.

Import Hmc Nuts.

Lemma dgt_zero_positive (x : double) : dgt x dzero = true <-> positive x.
Proof. unfold dgt, positive, dlt. tauto. Qed.

(** The inner product reads its arguments only below [n]. *)
Lemma euclidean_product_ext (n : nat) (a a' b b' : nat -> double) :
  (forall i, (i < n)%nat -> a i = a' i) ->
  (forall i, (i < n)%nat -> b i = b' i) ->
  euclidean_product n a b = euclidean_product n a' b'.
Proof.
  induction n as [| n IH]; intros Ha Hb; [reflexivity |].
  cbn [euclidean_product].
  rewrite IH, Ha, Hb by (intros; try apply Ha; try apply Hb; lia).
  reflexivity.
Qed.

Lemma combine_snoc (a b : list double) (x y : double) :
  List.length a = List.length b ->
  combine (a ++ [x]) (b ++ [y]) = combine a b ++ [(x, y)].
Proof.
  revert b. induction a as [| u a IH]; intros [| v b] Hl;
    try discriminate Hl; [reflexivity |].
  cbn [app combine]. rewrite IH by (cbn in Hl; lia). reflexivity.
Qed.

(** Eigen's [dot] on two vectors of one size is the Euclidean inner
    product of their coordinates. *)
Lemma dot_euclidean (a b : list double) :
  List.length a = List.length b ->
  dot a b = euclidean_product (List.length a) (coordinate a) (coordinate b).
Proof.
  revert b. induction a as [| x a IH] using rev_ind; intros b Hl.
  - reflexivity.
  - destruct b as [| y0 b0] using rev_ind;
      [rewrite length_app in Hl; cbn in Hl; lia |].
    clear IHb0. rename b0 into b, y0 into y.
    rewrite !length_app in Hl. cbn [List.length] in Hl.
    assert (Hl' : List.length a = List.length b) by lia.
    unfold dot. rewrite combine_snoc by exact Hl'.
    rewrite fold_left_app. cbn [fold_left fst snd].
    fold (dot a b). rewrite (IH b Hl').
    rewrite length_app, Nat.add_1_r. cbn [euclidean_product].
    assert (Hx : coordinate (a ++ [x]) (List.length a) = x)
      by apply nth_middle.
    assert (Hy : coordinate (b ++ [y]) (List.length a) = y)
      by (rewrite Hl'; apply nth_middle).
    rewrite Hx, Hy. f_equal.
    apply euclidean_product_ext; intros i Hi; unfold coordinate;
      rewrite app_nth1 by lia; reflexivity.
Qed.

Lemma vsub_length (a b : list double) :
  List.length a = List.length b -> List.length (vsub a b) = List.length a.
Proof.
  revert b. induction a as [| x a IH]; intros [| y b] Hl;
    try discriminate Hl; [reflexivity |].
  cbn [vsub List.length]. rewrite IH by (cbn in Hl; lia). reflexivity.
Qed.

(** Eigen's [rho - p] has the coordinates [rho_i - p_i]. *)
Lemma vsub_coordinate (rho p : list double) (i : nat) :
  List.length p = List.length rho -> (i < List.length rho)%nat ->
  coordinate (vsub rho p) i = still_to_go rho p i.
Proof.
  unfold still_to_go, coordinate.
  revert p i. induction rho as [| x rho IH]; intros [| y p] i Hl Hi;
    try discriminate Hl; [cbn in Hi; lia |].
  destruct i as [| i]; [reflexivity |].
  cbn [vsub nth]. apply IH; cbn in *; lia.
Qed.

Lemma directional_product (p rho : list double) :
  List.length p = List.length rho ->
  dot p (vsub rho p)
  = euclidean_product (List.length rho) (coordinate p) (still_to_go rho p).
Proof.
  intros Hl.
  rewrite dot_euclidean by (rewrite vsub_length; congruence).
  rewrite Hl.
  apply euclidean_product_ext; intros i Hi; [reflexivity |].
  apply vsub_coordinate; assumption.
Qed.

(** C9: on vectors of one size, [compute_criterion(start, finish, rho)]
    returns [true] exactly when both [p_finish . (rho - p_finish) > 0]
    and [p_start . (rho - p_start) > 0], where [a . b] is the Euclidean
    inner product, the sum over the coordinates of [a_i * b_i], and
    [rho - p] has the coordinates [rho_i - p_i]. *)
Theorem compute_criterion_iff (start : ps_point) (finish : unit_e_point)
  (rho : list double) :
  List.length (p start) = List.length rho ->
  List.length (p finish) = List.length rho ->
  (compute_criterion start finish rho = true
   <-> continues (p start) (p finish) rho).
Proof.
  intros Hs Hf. unfold compute_criterion, continues, positive, dgt.
  rewrite (directional_product (p finish) rho Hf),
    (directional_product (p start) rho Hs).
  apply andb_true_iff.
Qed.

(** A NaN in either product stops the expansion. *)
Lemma compute_criterion_nan (start : ps_point) (finish : unit_e_point)
  (rho : list double) :
  isnan (dot (p finish) (vsub rho (p finish))) = true
  \/ isnan (dot (p start) (vsub rho (p start))) = true ->
  compute_criterion start finish rho = false.
Proof.
  unfold compute_criterion, dgt.
  intros [H | H].
  - destruct (dot (p finish) _); try discriminate. reflexivity.
  - destruct (dot (p start) _); try discriminate. apply andb_false_r.
Qed.

(** A trajectory that still moves apart, and one that has turned. *)
Example criterion_continues :
  compute_criterion (mk_ps_point [dzero] [done] dzero [dzero])
    (mk_ps_point [dtwo] [done] dzero [dzero]) [of_int 3] = true.
Proof. reflexivity. Qed.

Example criterion_stops :
  compute_criterion (mk_ps_point [dzero] [done] dzero [dzero])
    (mk_ps_point [dzero] [of_int (-1)] dzero [dzero]) [dzero] = false.
Proof. reflexivity. Qed.

(** In two dimensions, with momenta [(3, -1)] and [(1, 1)] at the ends and
    [rho = (5, 2)]: the products are [3 * 2 + (-1) * 3 = 3] and
    [1 * 4 + 1 * 1 = 5], and the subtree continues.  With [rho = (2, 2)]
    the first product is [3 * (-1) + (-1) * 3 = -6], and it stops. *)
Lemma compute_criterion_run :
  (List.length (p (mk_ps_point [dzero; dzero] [done; done] dzero []))
   = List.length [of_int 5; dtwo]
   /\ List.length (p (mk_ps_point [dzero; dzero] [of_int 3; of_int (-1)]
                       dzero []))
      = List.length [of_int 5; dtwo]
   /\ euclidean_product 2 (coordinate [of_int 3; of_int (-1)])
        (still_to_go [of_int 5; dtwo] [of_int 3; of_int (-1)]) = of_int 3
   /\ euclidean_product 2 (coordinate [done; done])
        (still_to_go [of_int 5; dtwo] [done; done]) = of_int 5
   /\ compute_criterion (mk_ps_point [dzero; dzero] [done; done] dzero [])
        (mk_ps_point [dzero; dzero] [of_int 3; of_int (-1)] dzero [])
        [of_int 5; dtwo] = true)
  /\ (euclidean_product 2 (coordinate [of_int 3; of_int (-1)])
        (still_to_go [dtwo; dtwo] [of_int 3; of_int (-1)]) = of_int (-6)
      /\ compute_criterion (mk_ps_point [dzero; dzero] [done; done] dzero [])
           (mk_ps_point [dzero; dzero] [of_int 3; of_int (-1)] dzero [])
           [dtwo; dtwo] = false).
Proof.
  split.
  - split; [reflexivity |]. split; [reflexivity |].
    split; [vm_compute; reflexivity |]. split; [vm_compute; reflexivity |].
    apply (compute_criterion_iff
             (mk_ps_point [dzero; dzero] [done; done] dzero [])
             (mk_ps_point [dzero; dzero] [of_int 3; of_int (-1)] dzero [])
             [of_int 5; dtwo] eq_refl eq_refl).
    split; vm_compute; reflexivity.
  - split; [vm_compute; reflexivity |].
    destruct (compute_criterion
                (mk_ps_point [dzero; dzero] [done; done] dzero [])
                (mk_ps_point [dzero; dzero] [of_int 3; of_int (-1)] dzero [])
                [dtwo; dtwo]) eqn:E; [| reflexivity].
    apply (compute_criterion_iff
             (mk_ps_point [dzero; dzero] [done; done] dzero [])
             (mk_ps_point [dzero; dzero] [of_int 3; of_int (-1)] dzero [])
             [dtwo; dtwo] eq_refl eq_refl) in E.
    destruct E as [E _]. vm_compute in E. discriminate E.
Defined.

End NutsFacts.

(* ================================================================== *)
(** ** Static HMC: one transition *)
(* ================================================================== *)

Module TransitionFacts.

Import Hmc IEEEFacts.

Section Transition.

Variable RNG : Type.
Variable sample_stepsize : double -> RNG -> double * RNG.
Variable sample_p : ps_point -> RNG -> ps_point * RNG.
Variable init : ps_point -> ps_point.
Variable H : ps_point -> double.
Variable V_of : ps_point -> double.
Variable evolve : ps_point -> double -> ps_point.
Variable rand_uniform : RNG -> double * RNG.
Variable exp : double -> double.

Local Abbreviation transition :=
  (transition RNG sample_stepsize sample_p init H V_of evolve rand_uniform exp).
Local Abbreviation start := (start RNG sample_stepsize sample_p init).
Local Abbreviation proposal := (proposal RNG sample_stepsize sample_p init evolve).
Local Abbreviation H0_of := (H0_of RNG sample_stepsize sample_p init H).
Local Abbreviation h_of := (h_of RNG sample_stepsize sample_p init H evolve).
Local Abbreviation acceptProb_of :=
  (acceptProb_of RNG sample_stepsize sample_p init H evolve exp).
Local Abbreviation u_of := (u_of RNG sample_stepsize sample_p init rand_uniform).
Local Abbreviation rejects :=
  (rejects RNG sample_stepsize sample_p init H evolve rand_uniform exp).
Local Abbreviation restored :=
  (restored RNG sample_stepsize sample_p init H V_of evolve rand_uniform exp).
Local Abbreviation exp_range := (exp_range exp).
Local Abbreviation exp_neg_infinity := (exp_neg_infinity exp).
Local Abbreviation exp_nan := (exp_nan exp).
Local Abbreviation position_kept := (position_kept RNG sample_p init).

Implicit Types (s : base_static_hmc RNG) (init_sample : sample).

(** [transition] in terms of its observers. *)
Lemma transition_accept_probability s init_sample :
  accept_probability (fst (transition s init_sample))
  = if dgt (acceptProb_of s init_sample) done then done
    else acceptProb_of s init_sample.
Proof.
  unfold Hmc.transition, Hmc.acceptProb_of, Hmc.H0_of, Hmc.h_of, Hmc.proposal,
    Hmc.start.
  destruct (sample_stepsize _ _) as [eps r0].
  destruct (sample_p _ r0) as [z r1]. cbn [fst snd].
  destruct (dlt _ done); [destruct (rand_uniform r1) as [u r2];
                          destruct (dgt u _) |]; reflexivity.
Qed.

Lemma transition_state s init_sample :
  z_ RNG (snd (transition s init_sample))
  = if rejects s init_sample then fst (start s init_sample)
    else proposal s init_sample.
Proof.
  unfold Hmc.transition, Hmc.rejects, Hmc.u_of, Hmc.acceptProb_of, Hmc.H0_of,
    Hmc.h_of, Hmc.proposal, Hmc.start.
  destruct (sample_stepsize _ _) as [eps r0].
  destruct (sample_p _ r0) as [z r1]. cbn [fst snd].
  destruct (dlt _ done); [destruct (rand_uniform r1) as [u r2]; cbn [fst];
                          destruct (dgt u _) |]; reflexivity.
Qed.

Lemma transition_cont_params s init_sample :
  cont_params (fst (transition s init_sample))
  = q (z_ RNG (snd (transition s init_sample))).
Proof.
  unfold Hmc.transition.
  destruct (sample_stepsize _ _) as [eps r0].
  destruct (sample_p _ r0) as [z r1].
  destruct (dlt _ done); [destruct (rand_uniform r1) as [u r2];
                          destruct (dgt u _) |]; reflexivity.
Qed.

Lemma start_position s init_sample :
  position_kept -> q (fst (start s init_sample)) = cont_params init_sample.
Proof.
  intros [Hp Hi]. unfold Hmc.start.
  destruct (sample_stepsize _ _) as [eps r0].
  specialize (Hp (seed (z_ RNG s) (cont_params init_sample)) r0).
  destruct (sample_p _ r0) as [z r1]. cbn [fst] in *.
  rewrite Hi, Hp. reflexivity.
Qed.

Lemma energy_after_nan_test (h : double) :
  isnan (if isnan h then infinity else h) = false.
Proof. destruct h; reflexivity. Qed.

(** C4, as amended: when the Hamiltonian [H0] at the start of the
    trajectory is finite, then for any model, generator and trajectory
    (whatever energy, finite or not, the integration ends with) the
    [accept_probability] of the returned sample lies in [[0, 1]]. *)
Theorem accept_probability_in_unit_interval s init_sample :
  exp_range ->
  isfinite (H0_of s init_sample) = true ->
  dle dzero (accept_probability (fst (transition s init_sample))) = true
  /\ dle (accept_probability (fst (transition s init_sample))) done = true.
Proof.
  intros Hexp Hfin.
  rewrite transition_accept_probability.
  assert (Ha : isnan (acceptProb_of s init_sample) = false
               /\ dle dzero (acceptProb_of s init_sample) = true).
  { unfold Hmc.acceptProb_of. apply Hexp.
    apply dsub_finite_not_nan; [exact Hfin | apply energy_after_nan_test]. }
  destruct Ha as [Hnan Hpos].
  destruct (dgt (acceptProb_of s init_sample) done) eqn:Hgt.
  - split; reflexivity.
  - split; [exact Hpos |].
    apply dlt_false_dle; [reflexivity | exact Hnan | exact Hgt].
Qed.

(** With an infinite (or NaN) start energy and an infinite end energy the
    difference is NaN and so is the acceptance probability. *)
Lemma accept_probability_nan s init_sample :
  exp_nan ->
  H0_of s init_sample = infinity ->
  h_of s init_sample = infinity \/ isnan (h_of s init_sample) = true ->
  accept_probability (fst (transition s init_sample)) = NaN.
Proof.
  intros Hexp H0 Hh.
  rewrite transition_accept_probability.
  assert (Ha : acceptProb_of s init_sample = NaN).
  { unfold Hmc.acceptProb_of. rewrite H0.
    destruct Hh as [-> | Hh];
      [| destruct (Hmc.h_of _ _ _ _ _ _ _ _); try discriminate];
      exact Hexp. }
  rewrite Ha. reflexivity.
Qed.

Lemma acceptProb_zero s init_sample :
  exp_neg_infinity ->
  isnan (H0_of s init_sample) = false ->
  H0_of s init_sample <> infinity ->
  isnan (h_of s init_sample) = true \/ h_of s init_sample = infinity ->
  acceptProb_of s init_sample = dzero.
Proof.
  intros Hexp Hnan Hinf Hh. unfold Hmc.acceptProb_of.
  assert (Hh' : (if isnan (h_of s init_sample) then infinity
                 else h_of s init_sample) = infinity).
  { destruct Hh as [Hh | ->]; [rewrite Hh |]; reflexivity. }
  rewrite Hh'.
  assert (Hd : dsub (H0_of s init_sample) infinity = neg_infinity).
  { destruct (Hmc.H0_of _ _ _ _ _ _ _) as [[] | [] | | [] m e];
      try discriminate; try reflexivity. contradiction Hinf; reflexivity. }
  rewrite Hd. exact Hexp.
Qed.

Lemma rejects_when_zero s init_sample :
  acceptProb_of s init_sample = dzero ->
  dgt (u_of s init_sample) dzero = true ->
  rejects s init_sample = true.
Proof. intros Ha Hu. unfold Hmc.rejects. rewrite Ha, Hu. reflexivity. Qed.

(** C5: when the Metropolis test rejects, the sampler's point is the
    snapshot taken at the start of the trajectory and the returned
    sample's continuous parameters are those of [init_sample]; a
    trajectory that ends at energy [+infinity] from a finite start energy
    is rejected, and so restored, whenever the uniform draw is positive. *)
Theorem rejection_restores_state s init_sample :
  position_kept -> exp_neg_infinity ->
  (rejects s init_sample = true -> restored s init_sample)
  /\ (isfinite (H0_of s init_sample) = true ->
      h_of s init_sample = infinity ->
      dgt (u_of s init_sample) dzero = true ->
      rejects s init_sample = true /\ restored s init_sample).
Proof.
  intros Hq Hexp.
  assert (Hrej : rejects s init_sample = true -> restored s init_sample).
  { intros Hr. unfold Hmc.restored.
    rewrite transition_cont_params, transition_state, Hr.
    split; [reflexivity | apply start_position, Hq]. }
  split; [exact Hrej |].
  intros Hfin Hh Hu.
  assert (Hr : rejects s init_sample = true).
  { apply rejects_when_zero; [| exact Hu].
    apply acceptProb_zero; auto.
    - destruct (Hmc.H0_of _ _ _ _ _ _ _); try discriminate; reflexivity.
    - intros E. rewrite E in Hfin. discriminate. }
  split; [exact Hr | exact (Hrej Hr)].
Qed.

(** C6, as amended: an end energy [h] that is NaN is replaced by
    [+infinity]; for [h] NaN or [+infinity] and a start energy [H0] that
    is neither NaN nor [+infinity], the acceptance probability
    [exp(H0 - h)] is [0], it is the one reported, and the state before the
    trajectory is kept whenever the uniform draw is positive. *)
Theorem non_finite_energy_is_rejected s init_sample :
  exp_neg_infinity ->
  isnan (h_of s init_sample) = true \/ h_of s init_sample = infinity ->
  isnan (H0_of s init_sample) = false ->
  H0_of s init_sample <> infinity ->
  acceptProb_of s init_sample = exp (dsub (H0_of s init_sample) infinity)
  /\ acceptProb_of s init_sample = dzero
  /\ accept_probability (fst (transition s init_sample)) = dzero
  /\ (dgt (u_of s init_sample) dzero = true ->
      z_ RNG (snd (transition s init_sample)) = fst (start s init_sample)).
Proof.
  intros Hexp Hh Hnan Hinf.
  pose proof (acceptProb_zero s init_sample Hexp Hnan Hinf Hh) as Ha.
  split; [| split; [exact Ha | split]].
  - unfold Hmc.acceptProb_of.
    destruct Hh as [Hh | Hh]; rewrite Hh; reflexivity.
  - rewrite transition_accept_probability, Ha. reflexivity.
  - intros Hu. rewrite transition_state, (rejects_when_zero _ _ Ha Hu).
    reflexivity.
Qed.

(** An end energy of [-infinity] is not replaced: from a start energy that
    is a number other than [-infinity] the proposal is accepted. *)
Lemma negative_infinite_energy_is_accepted s init_sample :
  exp infinity = infinity ->
  h_of s init_sample = neg_infinity ->
  isnan (H0_of s init_sample) = false ->
  H0_of s init_sample <> neg_infinity ->
  accept_probability (fst (transition s init_sample)) = done
  /\ z_ RNG (snd (transition s init_sample)) = proposal s init_sample.
Proof.
  intros Hexp Hh Hnan Hinf.
  assert (Ha : acceptProb_of s init_sample = infinity).
  { unfold Hmc.acceptProb_of. rewrite Hh. cbn [isnan neg_infinity].
    assert (Hd : dsub (H0_of s init_sample) neg_infinity = infinity).
    { destruct (Hmc.H0_of _ _ _ _ _ _ _) as [[] | [] | | [] m e];
        try discriminate; try reflexivity. contradiction Hinf; reflexivity. }
    rewrite Hd. exact Hexp. }
  split.
  - rewrite transition_accept_probability, Ha. reflexivity.
  - rewrite transition_state. unfold Hmc.rejects. rewrite Ha. reflexivity.
Qed.

End Transition.

End TransitionFacts.

(* ================================================================== *)
(** ** Static HMC: transitions of the unit-metric sampler *)
(* ================================================================== *)

Module TransitionExamples.

Import Hmc Scripted TransitionFacts.

(** The coarse exponential keeps what the C standard fixes. *)
Lemma exp_coarse_range : exp_range exp_coarse.
Proof.
  intros x Hx.
  destruct x as [[] | [] | | [] m e]; try discriminate Hx; split; reflexivity.
Qed.

Lemma exp_coarse_neg_infinity : exp_neg_infinity exp_coarse.
Proof. reflexivity. Qed.

(** The unit-metric Hamiltonian keeps the position. *)
Lemma unit_metric_position_kept
  (potential : list double -> double)
  (gradient : list double -> list double) :
  position_kept RNG sample_p (init potential gradient).
Proof.
  split.
  - intros z r. unfold sample_p.
    destruct (draw (List.length (q z)) r) as [ps r']. reflexivity.
  - intros z. reflexivity.
Qed.

(** A standard normal target, momentum 1/4, uniform draw 1/2: the start
    energy is finite and the acceptance probability is in [[0, 1]]. *)
Lemma accept_probability_normal_run :
  exp_range exp_coarse
  /\ isfinite (H0_run normal_potential normal_gradient sampler_slow sample0)
     = true
  /\ dle dzero
       (accept_probability
          (fst (transition_run normal_potential normal_gradient
                  sampler_slow sample0))) = true
  /\ dle (accept_probability
            (fst (transition_run normal_potential normal_gradient
                    sampler_slow sample0))) done = true.
Proof.
  split; [exact exp_coarse_range |]. split; [reflexivity |].
  exact (accept_probability_in_unit_interval RNG sample_stepsize sample_p
           (init normal_potential normal_gradient) H V_of
           (evolve normal_potential normal_gradient) next exp_coarse
           sampler_slow sample0 exp_coarse_range eq_refl).
Defined.

(** A target whose log density is minus infinity everywhere: the start and
    the end energy are both [+infinity], their difference is NaN, and the
    acceptance probability returned is NaN, which is not in [[0, 1]]. *)
Lemma accept_probability_blocked_run :
  H0_run blocked_potential normal_gradient sampler_fast sample0 = infinity
  /\ h_run blocked_potential normal_gradient sampler_fast sample0 = infinity
  /\ accept_probability
       (fst (transition_run blocked_potential normal_gradient
               sampler_fast sample0)) = NaN
  /\ ~ (dle dzero
          (accept_probability
             (fst (transition_run blocked_potential normal_gradient
                     sampler_fast sample0))) = true
        /\ dle (accept_probability
                  (fst (transition_run blocked_potential normal_gradient
                          sampler_fast sample0))) done = true).
Proof.
  assert (E : accept_probability
                (fst (transition_run blocked_potential normal_gradient
                        sampler_fast sample0)) = NaN) by reflexivity.
  split; [reflexivity |]. split; [reflexivity |]. split; [exact E |].
  rewrite E. intros [H0 _]. discriminate H0.
Qed.

(** The wall: the single leapfrog step with momentum 1 ends beyond the
    wall, at energy [+infinity]; with the uniform draw 1/2 the proposal is
    rejected and the state restored. *)
Lemma rejection_wall_run :
  position_kept RNG sample_p (init wall_potential normal_gradient)
  /\ exp_neg_infinity exp_coarse
  /\ isfinite (H0_run wall_potential normal_gradient sampler_fast sample0)
     = true
  /\ h_run wall_potential normal_gradient sampler_fast sample0 = infinity
  /\ dgt (u_run wall_potential normal_gradient sampler_fast sample0) dzero
     = true
  /\ rejects_run wall_potential normal_gradient sampler_fast sample0 = true
  /\ restored_run wall_potential normal_gradient sampler_fast sample0.
Proof.
  pose proof (rejection_restores_state RNG sample_stepsize sample_p
                (init wall_potential normal_gradient) H V_of
                (evolve wall_potential normal_gradient) next exp_coarse
                sampler_fast sample0
                (unit_metric_position_kept wall_potential normal_gradient)
                exp_coarse_neg_infinity) as [Hrej Hwall].
  split; [apply unit_metric_position_kept |].
  split; [exact exp_coarse_neg_infinity |].
  split; [reflexivity |]. split; [reflexivity |]. split; [reflexivity |].
  exact (Hwall eq_refl eq_refl eq_refl).
Defined.

Lemma non_finite_energy_wall_run :
  exp_neg_infinity exp_coarse
  /\ h_run wall_potential normal_gradient sampler_fast sample0 = infinity
  /\ isnan (H0_run wall_potential normal_gradient sampler_fast sample0)
     = false
  /\ H0_run wall_potential normal_gradient sampler_fast sample0 <> infinity
  /\ acceptProb_run wall_potential normal_gradient sampler_fast sample0
     = dzero
  /\ accept_probability
       (fst (transition_run wall_potential normal_gradient
               sampler_fast sample0)) = dzero
  /\ z_ RNG (snd (transition_run wall_potential normal_gradient
                    sampler_fast sample0))
     = fst (start_run wall_potential normal_gradient sampler_fast sample0).
Proof.
  assert (Hne : H0_run wall_potential normal_gradient sampler_fast sample0
                <> infinity) by (vm_compute; discriminate).
  pose proof (non_finite_energy_is_rejected RNG sample_stepsize sample_p
                (init wall_potential normal_gradient) H V_of
                (evolve wall_potential normal_gradient) next exp_coarse
                sampler_fast sample0 exp_coarse_neg_infinity
                (or_intror eq_refl) eq_refl Hne) as (_ & Ha & Hp & Hz).
  split; [exact exp_coarse_neg_infinity |].
  split; [reflexivity |]. split; [reflexivity |]. split; [exact Hne |].
  split; [exact Ha |]. split; [exact Hp |].
  exact (Hz eq_refl).
Defined.

(** The spike: the single leapfrog step ends where the log density is
    plus infinity, at energy [-infinity].  This non-finite energy is not
    replaced: [exp(H0 - h)] is [+infinity], the probability reported is 1
    and the sampler moves to the proposal. *)
Lemma negative_infinite_energy_spike_run :
  h_run spike_potential normal_gradient sampler_fast sample0 = neg_infinity
  /\ isfinite (H0_run spike_potential normal_gradient sampler_fast sample0)
     = true
  /\ acceptProb_run spike_potential normal_gradient sampler_fast sample0
     = infinity
  /\ accept_probability
       (fst (transition_run spike_potential normal_gradient
               sampler_fast sample0)) = done
  /\ accept_probability
       (fst (transition_run spike_potential normal_gradient
               sampler_fast sample0)) <> dzero
  /\ z_ RNG (snd (transition_run spike_potential normal_gradient
                    sampler_fast sample0))
     <> fst (start_run spike_potential normal_gradient sampler_fast sample0)
  /\ cont_params
       (fst (transition_run spike_potential normal_gradient
               sampler_fast sample0)) <> cont_params sample0.
Proof.
  repeat split; try reflexivity; vm_compute; discriminate.
Qed.

(** With the uniform draw 0, which a generator on [[0, 1)] can return, the
    test [u > acceptProb] fails even for probability 0. *)
Example zero_draw_accepts_wall_run :
  acceptProb_run wall_potential normal_gradient sampler_fast_zero sample0
  = dzero
  /\ rejects_run wall_potential normal_gradient sampler_fast_zero sample0
     = false.
Proof. split; reflexivity. Qed.

End TransitionExamples.

(* ================================================================== *)
(** ** ADVI: the ELBO estimator *)
(* ================================================================== *)

Module ElboFacts.

Import Advi.

Section Elbo.

Variable RNG : Type.
Variable Q : Type.
Variable sample : Q -> RNG -> vec * RNG.
Variable entropy : Q -> double.
Variable log_prob : vec -> exn + double.
Variable this : advi.

Local Abbreviation N := (n_monte_carlo_elbo_ this).
Local Abbreviation calc_ELBO := (calc_ELBO RNG Q sample entropy log_prob this).
Local Abbreviation calc_ELBO_loop :=
  (calc_ELBO_loop RNG Q sample log_prob this).
Local Abbreviation draws := (draws RNG Q sample).
Local Abbreviation kept := (kept log_prob).
Local Abbreviation dropped := (dropped log_prob).
Local Abbreviation energy := (energy log_prob).
Local Abbreviation printed := (printed RNG this).
Local Abbreviation drawn := (drawn RNG).
Local Abbreviation dropped_error := (dropped_error this).
Local Abbreviation never_finite := (never_finite log_prob).

Implicit Types (w : world RNG) (variational : Q).

Lemma printed_printed (a b : list token) w :
  printed b (printed a w) = printed (a ++ b) w.
Proof.
  unfold Advi.printed. destruct (print_stream_ this); [| reflexivity].
  cbn. rewrite app_assoc. reflexivity.
Qed.


Lemma printed_drawn (ts : list token) (r : RNG) w :
  printed ts (drawn r w) = drawn r (printed ts w).
Proof.
  unfold Advi.printed, Advi.drawn. destruct (print_stream_ this); reflexivity.
Qed.

Lemma drawn_drawn (r r' : RNG) w : drawn r' (drawn r w) = drawn r' w.
Proof. reflexivity. Qed.

Lemma rng_printed (ts : list token) w : rng RNG (printed ts w) = rng RNG w.
Proof. unfold Advi.printed. destruct (print_stream_ this); reflexivity. Qed.

(** One turn of the loop. *)
Lemma calc_ELBO_loop_turn (fuel : nat) variational (i d : Z) (elbo : double) w :
  i < N ->
  calc_ELBO_loop (S fuel) variational i d elbo w
  = let '(zeta, r) := sample variational (rng RNG w) in
    match energy zeta with
    | inr energy_i =>
        calc_ELBO_loop fuel variational (i + 1) d (dadd elbo energy_i)
          (drawn r w)
    | inl e =>
        if d + 1 >=? N
        then (Throw dropped_error, printed (error_msg e) (drawn r w))
        else calc_ELBO_loop fuel variational i (d + 1) elbo
               (printed (error_msg e) (drawn r w))
    end.
Proof.
  intros Hi. cbn [Advi.calc_ELBO_loop].
  apply Z.ltb_lt in Hi. rewrite Hi.
  unfold bind at 1, with_rng.
  destruct (sample variational (rng RNG w)) as [zeta r].
  fold (drawn r w).
  destruct (energy zeta) as [e | energy_i]; [| reflexivity].
  unfold bind, write_error_msg_, print.
  destruct (d + 1 >=? N); reflexivity.
Qed.

Lemma calc_ELBO_loop_done (fuel : nat) variational (i d : Z) (elbo : double) w :
  N <= i -> calc_ELBO_loop fuel variational i d elbo w = (Return elbo, w).
Proof.
  intros Hi. apply Z.ltb_ge in Hi.
  destruct fuel; cbn [Advi.calc_ELBO_loop]; rewrite Hi; reflexivity.
Qed.

Lemma never_finite_energy : never_finite -> forall zeta, exists e, energy zeta = inl e.
Proof.
  intros Hnf zeta. specialize (Hnf zeta). unfold Advi.energy.
  destruct (log_prob zeta) as [e | x]; [eexists; reflexivity |].
  unfold check_finite. rewrite Hnf. eexists; reflexivity.
Qed.

Lemma never_finite_kept : never_finite -> forall zetas, kept zetas = [].
Proof.
  intros Hnf zetas. induction zetas as [| zeta zetas IH]; [reflexivity |].
  unfold Advi.kept in *. cbn [flat_map].
  destruct (never_finite_energy Hnf zeta) as [e ->]. exact IH.
Qed.

Lemma never_finite_dropped :
  never_finite -> forall zetas, List.length (dropped zetas) = List.length zetas.
Proof.
  intros Hnf zetas. induction zetas as [| zeta zetas IH]; [reflexivity |].
  unfold Advi.dropped in *. cbn [flat_map].
  destruct (never_finite_energy Hnf zeta) as [e ->]. cbn. rewrite IH. reflexivity.
Qed.

Lemma draws_length (k : nat) variational (r : RNG) :
  List.length (fst (draws k variational r)) = k.
Proof.
  revert r. induction k as [| k IH]; intros r; [reflexivity |].
  cbn [Advi.draws]. destruct (sample variational r) as [zeta r1].
  specialize (IH r1). destruct (draws k variational r1) as [zs r2].
  cbn in *. rewrite IH. reflexivity.
Qed.

Lemma draws_S (k : nat) variational (r : RNG) :
  draws (S k) variational r
  = let '(zeta, r1) := sample variational r in
    let '(zetas, r2) := draws k variational r1 in
    (zeta :: zetas, r2).
Proof. reflexivity. Qed.

Lemma dropped_cons (zeta : vec) (zetas : list vec) :
  dropped (zeta :: zetas)
  = match energy zeta with inl e => [e] | inr _ => [] end ++ dropped zetas.
Proof. reflexivity. Qed.

Lemma kept_cons (zeta : vec) (zetas : list vec) :
  kept (zeta :: zetas)
  = match energy zeta with inl _ => [] | inr x => [x] end ++ kept zetas.
Proof. reflexivity. Qed.

(** When every evaluation is dropped, the loop throws at the drop that
    brings the counter to [N]. *)
Lemma calc_ELBO_loop_all_dropped variational :
  never_finite ->
  forall (n fuel : nat) (i d : Z) (elbo : double) w,
    i < N -> d + Z.of_nat (S n) = N -> (S n <= fuel)%nat ->
    calc_ELBO_loop fuel variational i d elbo w
    = (Throw dropped_error,
       printed (flat_map error_msg
                  (dropped (fst (draws (S n) variational (rng RNG w)))))
         (drawn (snd (draws (S n) variational (rng RNG w))) w)).
Proof.
  intros Hnf n. induction n as [| n IH]; intros fuel i d elbo w Hi Hd Hf;
    (destruct fuel as [| fuel]; [lia |]);
    rewrite calc_ELBO_loop_turn by exact Hi;
    rewrite draws_S; destruct (sample variational (rng RNG w)) as [zeta r];
    destruct (never_finite_energy Hnf zeta) as [e He]; rewrite He.
  - destruct (Z.geb_spec (d + 1) N); [| lia].
    cbn [Advi.draws fst snd]. rewrite dropped_cons, He. cbn. reflexivity.
  - destruct (Z.geb_spec (d + 1) N); [lia |].
    rewrite (IH fuel i (d + 1) elbo) by (try exact Hi; lia).
    rewrite rng_printed. cbn [rng drawn].
    destruct (draws (S n) variational r) as [zs r'].
    cbn [fst snd]. rewrite dropped_cons, He. cbn [app flat_map].
    rewrite !printed_drawn, printed_printed. reflexivity.
Qed.

(** When the first [k] draws hold [N - i] kept energies and too few drops
    to throw, the loop returns with those energies added in order. *)
Lemma calc_ELBO_loop_kept variational :
  forall (k fuel : nat) (i d : Z) (elbo : double) w,
    0 <= d ->
    Z.of_nat (List.length (kept (fst (draws k variational (rng RNG w)))))
    = Z.max 0 (N - i) ->
    d + Z.of_nat (List.length
                    (dropped (fst (draws k variational (rng RNG w))))) < N ->
    (k <= fuel)%nat ->
    fst (calc_ELBO_loop fuel variational i d elbo w)
    = Return (fold_left dadd (kept (fst (draws k variational (rng RNG w))))
                elbo).
Proof.
  induction k as [| k IH]; intros fuel i d elbo w Hd Hk Hdrop Hf.
  - cbn in Hk |- *. rewrite calc_ELBO_loop_done by lia. reflexivity.
  - destruct (Z.lt_ge_cases i N) as [Hi | Hi].
    + destruct fuel as [| fuel]; [lia |].
      rewrite calc_ELBO_loop_turn by exact Hi.
      rewrite draws_S in *.
      destruct (sample variational (rng RNG w)) as [zeta r].
      specialize (IH fuel).
      destruct (energy zeta) as [e | energy_i] eqn:He.
      * destruct (Z.geb_spec (d + 1) N) as [Hge | Hlt].
        { destruct (draws k variational r) as [zs r']. cbn [fst] in Hdrop.
          rewrite dropped_cons, He in Hdrop. cbn [app List.length] in Hdrop.
          lia. }
        specialize (IH i (d + 1) elbo (printed (error_msg e) (drawn r w))).
        rewrite rng_printed in IH. cbn [rng drawn] in IH.
        destruct (draws k variational r) as [zs r']. cbn [fst] in *.
        rewrite kept_cons, He in *. rewrite dropped_cons, He in Hdrop.
        cbn [app List.length] in *.
        apply IH; lia.
      * specialize (IH (i + 1) d (dadd elbo energy_i) (drawn r w)).
        cbn [rng drawn] in IH.
        destruct (draws k variational r) as [zs r']. cbn [fst] in *.
        rewrite kept_cons, He in *. rewrite dropped_cons, He in Hdrop.
        cbn [app List.length fold_left] in *.
        apply IH; lia.
    + rewrite calc_ELBO_loop_done by exact Hi.
      destruct (kept _) as [| x l]; [reflexivity |].
      cbn [List.length] in Hk. lia.
Qed.

Lemma kept_dropped_length (zetas : list vec) :
  (List.length (kept zetas) + List.length (dropped zetas))%nat
  = List.length zetas.
Proof.
  induction zetas as [| zeta zetas IH]; [reflexivity |].
  rewrite kept_cons, dropped_cons, !length_app.
  destruct (energy zeta); cbn [List.length]; lia.
Qed.

Lemma calc_ELBO_loop_ends variational :
  forall (fuel : nat) (i d : Z) (elbo : double) w,
    0 <= d < N ->
    (Z.to_nat (N - i) + Z.to_nat (N - 1 - d) <= fuel)%nat ->
    ends (fst (calc_ELBO_loop fuel variational i d elbo w)).
Proof.
  induction fuel as [| fuel IH]; intros i d elbo w Hd Hf.
  - rewrite calc_ELBO_loop_done by lia. exact I.
  - destruct (Z.lt_ge_cases i N) as [Hi | Hi];
      [| rewrite calc_ELBO_loop_done by exact Hi; exact I].
    rewrite calc_ELBO_loop_turn by exact Hi.
    destruct (sample variational (rng RNG w)) as [zeta r].
    destruct (energy zeta) as [e | energy_i].
    + destruct (Z.geb_spec (d + 1) N); [exact I |]. apply IH; lia.
    + apply IH; lia.
Qed.

(** C3: for a model whose log density is never finite, [calc_ELBO]
    raises the domain error that names the draw limit [N_elbo], after
    exactly [N_elbo] draws, each of them dropped (and reported on the
    print stream when there is one); and when some first draws hold
    [N_elbo] finite evaluations and fewer than [N_elbo] dropped ones,
    [calc_ELBO] returns the sum of those [N_elbo] energies, added in order
    from 0, divided by [N_elbo], plus the entropy of the family.  In every
    case the call ends. *)
Theorem calc_ELBO_drops_or_averages variational w :
  0 < N ->
  (never_finite ->
   let zetas := fst (draws (Z.to_nat N) variational (rng RNG w)) in
   let r := snd (draws (Z.to_nat N) variational (rng RNG w)) in
   calc_ELBO variational w
   = (Throw (domain_error "stan::variational::advi::calc_ELBO"
               "The number of dropped evaluations" (VInt N)
               "has reached its maximum amount ("
               "). Your model may be either severely ill-conditioned or misspecified."),
      printed (flat_map error_msg (dropped zetas)) (drawn r w))
   /\ Z.of_nat (List.length (dropped zetas)) = N
   /\ kept zetas = [])
  /\ (forall k : nat,
      let zetas := fst (draws k variational (rng RNG w)) in
      Z.of_nat (List.length (kept zetas)) = N ->
      Z.of_nat (List.length (dropped zetas)) < N ->
      fst (calc_ELBO variational w)
      = Return (dadd (ddiv (fold_left dadd (kept zetas) dzero) (of_int N))
                  (entropy variational)))
  /\ ends (fst (calc_ELBO variational w)).
Proof.
  intros HN. split; [| split].
  - intros Hnf zetas r. subst zetas r.
    destruct (Z.to_nat N) as [| n] eqn:En; [lia |].
    split; [| split].
    + unfold Advi.calc_ELBO, bind.
      rewrite (calc_ELBO_loop_all_dropped variational Hnf n) by lia.
      reflexivity.
    + rewrite never_finite_dropped, draws_length by exact Hnf. lia.
    + apply never_finite_kept, Hnf.
  - intros k zetas Hk Hdrop. subst zetas.
    pose proof (kept_dropped_length
                  (fst (draws k variational (rng RNG w)))) as Hlen.
    rewrite draws_length in Hlen.
    pose proof (calc_ELBO_loop_kept variational k
                  (Z.to_nat (2 * N)) 0 0 dzero w) as Hloop.
    unfold Advi.calc_ELBO, bind.
    destruct (calc_ELBO_loop _ variational 0 0 dzero w) as [o w'].
    cbn [fst] in Hloop. rewrite Hloop by lia. reflexivity.
  - pose proof (calc_ELBO_loop_ends variational (Z.to_nat (2 * N)) 0 0
                  dzero w) as He.
    unfold Advi.calc_ELBO, bind.
    destruct (calc_ELBO_loop _ variational 0 0 dzero w) as [[x | e | |] w'];
      cbn [fst] in He |- *; try exact I; apply He; lia.
Qed.

End Elbo.

Import Scripted.

Lemma nan_model_never_finite : never_finite nan_log_prob.
Proof. intros zeta. reflexivity. Qed.

(** Three draws from a model that is NaN everywhere: the domain error,
    naming 3.  Four draws [1, NaN, 2, 3] of the identity model with
    [N_elbo = 3]: one dropped, the mean 2 of the other three returned. *)
Lemma calc_ELBO_runs :
  (0 < 3 /\ never_finite nan_log_prob
   /\ fst (Scripted.calc_ELBO nan_log_prob (advi1 3 true) [dzero] (world0 []))
      = Throw (domain_error "stan::variational::advi::calc_ELBO"
                 "The number of dropped evaluations" (VInt 3)
                 "has reached its maximum amount ("
                 "). Your model may be either severely ill-conditioned or misspecified."))
  /\ (Z.of_nat (List.length
                  (kept identity_log_prob
                     (fst (draws RNG Q sample 4 [dzero]
                             [done; NaN; dtwo; of_int 3])))) = 3
      /\ Z.of_nat (List.length
                     (dropped identity_log_prob
                        (fst (draws RNG Q sample 4 [dzero]
                                [done; NaN; dtwo; of_int 3])))) < 3
      /\ fst (Scripted.calc_ELBO identity_log_prob (advi1 3 true) [dzero]
                (world0 [done; NaN; dtwo; of_int 3]))
         = Return dtwo).
Proof.
  assert (H3 : 0 < 3) by lia.
  assert (Hd : Z.of_nat (List.length
                  (dropped identity_log_prob
                     (fst (draws RNG Q sample 4 [dzero]
                             [done; NaN; dtwo; of_int 3])))) < 3)
    by (vm_compute; reflexivity).
  destruct (calc_ELBO_drops_or_averages RNG Q sample entropy nan_log_prob
              (advi1 3 true) [dzero] (world0 []) H3) as [Hthrow _].
  destruct (calc_ELBO_drops_or_averages RNG Q sample entropy
              identity_log_prob (advi1 3 true) [dzero]
              (world0 [done; NaN; dtwo; of_int 3]) H3) as [_ [Hmean _]].
  split.
  - split; [exact H3 |]. split; [exact nan_model_never_finite |].
    destruct (Hthrow nan_model_never_finite) as [E _].
    unfold Scripted.calc_ELBO. rewrite E. reflexivity.
  - split; [reflexivity |]. split; [exact Hd |].
    exact (Hmean 4%nat eq_refl Hd).
Defined.

End ElboFacts.

(* ================================================================== *)
(** ** ADVI: the relative difference of the convergence check *)
(* ================================================================== *)

Module AscentFacts.

Import Advi.

Section Ascent.

Variable RNG : Type.
Variable Q : Type.
Variable sample : Q -> RNG -> vec * RNG.
Variable entropy : Q -> double.
Variable log_prob : vec -> exn + double.
Variable nth_element : list double -> nat -> list double.
Variable this : advi.

Local Abbreviation calc_ELBO := (calc_ELBO RNG Q sample entropy log_prob this).
Local Abbreviation convergence_check :=
  (convergence_check RNG Q sample entropy log_prob nth_element this).

Implicit Types (w : world RNG) (variational : Q) (t : tracking).

(** What a convergence check that returns has pushed into the buffer: the
    change of the ELBO divided by the magnitude of the ELBO just
    measured. *)
Lemma convergence_check_pushes (tol_rel_obj : double) (iter_main : Z)
  variational t w t' w' :
  convergence_check tol_rel_obj iter_main variational t w = (Return t', w') ->
  exists e w1,
    calc_ELBO variational w = (Return e, w1)
    /\ elbo t' = e /\ elbo_prev t' = elbo t
    /\ delta_elbo t' = ddiv (dabs (dsub (elbo t) e)) (dabs e)
    /\ elbo_diff t' = push_back (elbo_diff t) (delta_elbo t').
Proof.
  unfold Advi.convergence_check, bind.
  destruct (calc_ELBO variational w) as [[e | x | |] w1]; try discriminate.
  unfold of_option.
  destruct (circ_buff_median_ _) as [med |]; try discriminate.
  unfold ret, print, write_diag.
  repeat match goal with
         | |- context [if ?b then _ else _] => destruct b
         end;
    intros [= <- <-]; exists e, w1; repeat split.
Qed.

End Ascent.

Import Scripted.

(** C2 at the failing input.  A check that finds the ELBO at -2 after -4
    pushes [|-4 - (-2)| / |-2| = 1], the change divided by the current
    value, where the change divided by the previous value is 1/2.  The
    first check of a run, when the previous value is the initial 0, pushes
    1 where the division by the previous value gives infinity. *)
Theorem relative_difference_divides_by_current :
  (exists t' w',
     Scripted.convergence_check identity_log_prob (advi1 1 false)
       (lit 1 100) 2 [of_int (-2)] (tracking_at (of_int (-4))) (world0 [])
     = (Return t', w')
     /\ elbo_prev t' = of_int (-4) /\ elbo t' = of_int (-2)
     /\ items (elbo_diff t') = [done]
     /\ ddiv (dabs (dsub (elbo t') (elbo_prev t'))) (dabs (elbo_prev t'))
        = lit 1 2)
  /\ (exists t' w',
        Scripted.convergence_check identity_log_prob (advi1 1 false)
          (lit 1 100) 1 [of_int (-2)] (tracking_at dzero) (world0 [])
        = (Return t', w')
        /\ elbo_prev t' = dzero /\ elbo t' = of_int (-2)
        /\ items (elbo_diff t') = [done]
        /\ ddiv (dabs (dsub (elbo t') (elbo_prev t'))) (dabs (elbo_prev t'))
           = infinity).
Proof.
  split; eexists; eexists; (split; [vm_compute; reflexivity |]);
    repeat split.
Qed.

End AscentFacts.

(* ================================================================== *)
(** ** ADVI: the step-size tuner *)
(* ================================================================== *)

Module TuneFacts.

Import Advi.

Section Tune.

Variable RNG : Type.
Variable Q : Type.
Variable Q_dim : Z -> Q.
Variable Q_params : vec -> Q.
Variable dimension : Q -> Z.
Variable sample : Q -> RNG -> vec * RNG.
Variable entropy : Q -> double.
Variable calc_grad : Q -> vec -> Z -> RNG -> (exn + Q) * RNG.
Variable square : Q -> Q.
Variable sqrt : Q -> Q.
Variable Qadd : Q -> Q -> Q.
Variable Qscale : double -> Q -> Q.
Variable Qdiv : Q -> Q -> Q.
Variable Qadd_scalar : double -> Q -> Q.
Variable num_params_r : Z.
Variable log_prob : vec -> exn + double.
Variable this : advi.

Local Abbreviation calc_ELBO := (calc_ELBO RNG Q sample entropy log_prob this).
Local Abbreviation tune_iterations :=
  (tune_iterations RNG Q dimension calc_grad square sqrt Qadd Qscale Qdiv
     Qadd_scalar this).
Local Abbreviation tune_loop :=
  (tune_loop RNG Q Q_dim Q_params dimension sample entropy calc_grad square
     sqrt Qadd Qscale Qdiv Qadd_scalar num_params_r log_prob this).
Local Abbreviation printed := (printed RNG this).
Local Abbreviation measured :=
  (measured RNG Q dimension sample entropy calc_grad square sqrt Qadd Qscale
     Qdiv Qadd_scalar log_prob this).

Implicit Types (w : world RNG) (variational elbo_grad params_prop : Q).

(** The turn when another step size is left to try. *)
Lemma tune_loop_next (fuel : nat) (elbo_init : double)
  variational elbo_grad params_prop (eta next : double) (rest : list double)
  (elbo_best : double) (eta_best : option double) w
  variational' elbo_grad' params_prop' (elbo : double) w' :
  measured eta variational elbo_grad params_prop w
    variational' elbo_grad' params_prop' elbo w' ->
  dlt elbo elbo_best && dgt elbo_best elbo_init = false ->
  tune_loop (S fuel) elbo_init variational elbo_grad params_prop
    eta (next :: rest) elbo_best eta_best w
  = tune_loop fuel elbo_init (Q_params (cont_params_ this)) elbo_grad'
      (Q_dim num_params_r) next rest elbo (Some eta)
      (printed [Str "FAILED."; Endl] w').
Proof.
  intros (w1 & Hit & Hel) Hstop.
  cbn [Advi.tune_loop]. unfold bind at 1, print at 1.
  unfold bind at 1. rewrite Hit.
  unfold bind at 1. rewrite Hel, Hstop.
  unfold bind at 1, print at 1. reflexivity.
Qed.

(** The turn when the sequence is exhausted and the ELBO measured last
    does not exceed the initial one: with a print stream the failure is
    reported and 0 returned; without one nothing is returned, and the loop
    goes round again with the same step size. *)
Lemma tune_loop_exhausted (fuel : nat) (elbo_init : double)
  variational elbo_grad params_prop (eta : double)
  (elbo_best : double) (eta_best : option double) w
  variational' elbo_grad' params_prop' (elbo : double) w' :
  measured eta variational elbo_grad params_prop w
    variational' elbo_grad' params_prop' elbo w' ->
  dlt elbo elbo_best && dgt elbo_best elbo_init = false ->
  dgt elbo elbo_init = false ->
  tune_loop (S fuel) elbo_init variational elbo_grad params_prop
    eta [] elbo_best eta_best w
  = if print_stream_ this
    then (Return (dzero, variational'),
          printed [Str "FAILED."; Endl; Str "ALL STEP SIZES FAILED."; Endl]
            w')
    else tune_loop fuel elbo_init (Q_params (cont_params_ this)) elbo_grad'
           (Q_dim num_params_r) eta [] elbo_best eta_best w'.
Proof.
  intros (w1 & Hit & Hel) Hstop Hle.
  cbn [Advi.tune_loop]. unfold bind at 1, print at 1.
  unfold bind at 1. rewrite Hit.
  unfold bind at 1. rewrite Hel, Hstop, Hle.
  destruct (print_stream_ this); [| reflexivity].
  unfold bind at 1, print at 1. reflexivity.
Qed.

End Tune.

Import Scripted.

Lemma flat_measured (print_stream : bool) (eta : double) :
  In eta eta_sequence_0 ->
  forall w, rng RNG w = [] ->
  measured RNG Q dimension sample entropy (calc_grad zero_gradient) square
    sqrt Qadd Qscale Qdiv Qadd_scalar flat_log_prob (advi1 1 print_stream)
    eta [dzero] [dzero] [dzero] w [dzero] [dzero] [dzero] minus_one
    (printed RNG (advi1 1 print_stream) (trying eta) w).
Proof.
  intros Hin w Hw. unfold Advi.measured.
  exists (printed RNG (advi1 1 print_stream) (trying eta) w).
  assert (Hr : rng RNG (printed RNG (advi1 1 print_stream) (trying eta) w) = [])
    by (destruct print_stream; exact Hw).
  revert Hr. generalize (printed RNG (advi1 1 print_stream) (trying eta) w).
  intros [r po d] Hr. cbn in Hr. subst r.
  cbn in Hin.
  repeat (destruct Hin as [<- | Hin]; [split; vm_compute; reflexivity |]).
  contradiction.
Qed.

Lemma flat_loops_forever (fuel : nat) :
  fst (Advi.tune_loop RNG Q Q_dim Q_params dimension sample entropy
         (calc_grad zero_gradient) square sqrt Qadd Qscale Qdiv Qadd_scalar 1
         flat_log_prob (advi1 1 false) fuel minus_one [dzero] [dzero] [dzero]
         (lit 1 100) [] minus_one (Some (lit 5 100)) flat_world)
  = OutOfFuel.
Proof.
  induction fuel as [| fuel IH]; [reflexivity |].
  erewrite tune_loop_exhausted;
    [| apply (flat_measured false); [cbn; tauto | reflexivity]
     | reflexivity | reflexivity].
  exact IH.
Qed.

(** C1 at the failing input: a model whose log density is -1 everywhere,
    so that every ELBO measured is -1 and no step size improves on the
    initial ELBO.  With a print stream [tune] reports that all step sizes
    failed and returns 0 at the fifth turn.  Without one it never returns:
    whatever bound is put on the turns of the loop, the bound is used up.
    And when the estimates are noisy (initial ELBO 0, then five times -1,
    then 1), [tune] without a print stream returns the step size 0.01 at
    the sixth turn, where with a print stream it had returned 0 at the
    fifth. *)
Theorem tune_without_print_stream_does_not_fail :
  (forall fuel : nat,
     fst (Scripted.tune flat_log_prob zero_gradient (advi1 1 false) fuel
            [dzero] (world0 [])) = OutOfFuel)
  /\ (exists out,
        Scripted.tune flat_log_prob zero_gradient (advi1 1 true) 5
          [dzero] (world0 [])
        = (Return (dzero, [dzero]), mk_world RNG [] out [])
        /\ skipn (List.length out - 2) out
           = [Str "ALL STEP SIZES FAILED."; Endl])
  /\ fst (Scripted.tune identity_log_prob zero_gradient (advi1 1 true) 6
            [dzero] (world0 noisy_draws)) = Return (dzero, [dzero])
  /\ fst (Scripted.tune identity_log_prob zero_gradient (advi1 1 false) 6
            [dzero] (world0 noisy_draws)) = Return (lit 1 100, [dzero]).
Proof.
  split; [| split; [| split]].
  - intros fuel.
    unfold Scripted.tune, Advi.tune, eta_sequence_0, bind.
    change (Advi.calc_ELBO RNG Q sample entropy flat_log_prob
              (advi1 1 false) [dzero] (world0 []))
      with (Return minus_one, flat_world).
    cbv beta iota.
    do 4 (destruct fuel as [| fuel]; [reflexivity |];
          erewrite tune_loop_next;
          [| apply (flat_measured false); [cbn; tauto | reflexivity]
           | reflexivity]).
    apply flat_loops_forever.
  - eexists. split; [vm_compute; reflexivity | reflexivity].
  - vm_compute. reflexivity.
  - vm_compute. reflexivity.
Qed.

End TuneFacts.

(* ================================================================== *)
(** ** ADVI: the capacity of the circular buffer *)
(* ================================================================== *)

Module BufferFacts.

Import Advi IEEEFacts RoundingFacts.

Lemma lit_tenth_normal : normal (lit 1 10) (-56) (-56).
Proof.
  exists 7205759403792794%positive, (-56).
  split; [vm_compute; reflexivity | split; [reflexivity | lia]].
Qed.

Lemma dfloor_normal (m : positive) (e : Z) :
  e <= 0 ->
  dfloor (S754_finite false m e) = Some (Z.pos m / 2 ^ (- e))
  /\ dtrunc (S754_finite false m e) = Some (Z.pos m / 2 ^ (- e)).
Proof.
  intros He. cbn [dfloor dtrunc cond_Zopp].
  rewrite Z.shiftl_div_pow2 by exact He. split; reflexivity.
Qed.

Lemma quotient_normal (mi ev : Z) :
  0 < mi <= INT_MAX ->
  0 < ev <= INT_MAX ->
  normal (ddiv (dmul (lit 1 10) (of_int mi)) (of_int ev)) (-88) (-22).
Proof.
  intros Hmi Hev.
  pose proof (dmul_normal _ _ _ _ _ _ lit_tenth_normal (of_int_normal _ Hmi)) as H1.
  assert (H1' : normal (dmul (lit 1 10) (of_int mi)) (-56) (-23)).
  { eapply normal_weaken; [apply H1; lia | lia | lia]. }
  pose proof (ddiv_normal _ _ _ _ _ _ H1' (of_int_normal _ Hev)) as H2.
  eapply normal_weaken; [apply H2; lia | lia | lia].
Qed.

(** Against 2, a positive double in normal form is ordered by its
    exponent alone. *)
Lemma dlt_normal_two (m : positive) (e : Z) :
  Z.pos (digits2_pos m) = 53 ->
  dlt (S754_finite false m e) dtwo = (e <? -51).
Proof.
  intros Hd. pose proof (digits_bounds m) as [Hlo _]. rewrite Hd in Hlo.
  change (2 ^ (53 - 1)) with 4503599627370496 in Hlo.
  unfold dlt, SFltb.
  change dtwo with (S754_finite false 4503599627370496 (-51)).
  remember 4503599627370496%positive as c eqn:Ec.
  cbn [SFcompare]. rewrite Pos.compare_cont_spec.
  destruct (Z.compare_spec e (-51)) as [Heq | Hlt | Hgt];
    destruct (Z.ltb_spec e (-51)) as [Hl | Hl]; try lia; try reflexivity.
  destruct (m ?= c)%positive eqn:Ecmp; try reflexivity.
  exfalso. apply Pos.compare_lt_iff, Pos2Z.pos_lt_pos in Ecmp.
  exact (Z.lt_irrefl _ (Z.lt_le_trans _ _ _ Ecmp Hlo)).
Qed.

(** The integer part of a 53-digit mantissa scaled by [2^-k]. *)
Lemma scaled_mantissa_bounds (m : positive) (k : Z) :
  Z.pos (digits2_pos m) = 53 -> 0 <= k ->
  (52 <= k -> Z.pos m / 2 ^ k < 2)
  /\ (k <= 51 -> 2 <= Z.pos m / 2 ^ k)
  /\ (22 <= k -> Z.pos m / 2 ^ k < 2147483648).
Proof.
  intros Hd Hk. pose proof (digits_bounds m) as [Hlo Hhi].
  rewrite Hd in Hlo, Hhi. clear Hd.
  assert (Hpow : 0 < 2 ^ k) by (apply Z.pow_pos_nonneg; lia).
  split; [| split]; intros Hk'.
  - apply Z.div_lt_upper_bound; [exact Hpow |].
    assert (H : 2 ^ 52 <= 2 ^ k) by (apply Z.pow_le_mono_r; lia).
    apply Z.lt_le_trans with (1 := Hhi).
    change (2 ^ 53) with (2 ^ 52 * 2).
    apply Z.mul_le_mono_nonneg_r; [discriminate | exact H].
  - apply Z.div_le_lower_bound; [exact Hpow |].
    assert (H : 2 ^ k <= 2 ^ 51) by (apply Z.pow_le_mono_r; lia).
    apply Z.le_trans with (2 := Hlo).
    change (2 ^ (53 - 1)) with (2 ^ 51 * 2).
    apply Z.mul_le_mono_nonneg_r; [discriminate | exact H].
  - apply Z.div_lt_upper_bound; [exact Hpow |].
    assert (H : 2 ^ 22 <= 2 ^ k) by (apply Z.pow_le_mono_r; lia).
    apply Z.lt_le_trans with (1 := Hhi).
    change (2 ^ 53) with (2 ^ 22 * 2147483648).
    apply Z.mul_le_mono_nonneg_r; [discriminate | exact H].
Qed.

Lemma static_cast_int_in_range (x : double) (n : Z) :
  dtrunc x = Some n -> 0 <= n < 2147483648 -> static_cast_int x = Some n.
Proof.
  intros Ht Hn. unfold static_cast_int, INT_MIN, INT_MAX. rewrite Ht.
  destruct (Z.leb_spec (-2147483648) n); [| lia].
  destruct (Z.leb_spec n 2147483647); [reflexivity | lia].
Qed.

(** C8, as amended: for [max_iterations > 0] and [eval_elbo > 0] (both
    [int]s), the circular buffer is created with capacity
    [max(floor(x), 2)], where [x] is [0.1 * max_iterations / eval_elbo]
    computed in double precision: the cast truncates, it does not round
    up. *)
Theorem cb_size_is_clamped_floor (this : advi) (max_iterations : Z) :
  0 < max_iterations <= INT_MAX ->
  0 < eval_elbo_ this <= INT_MAX ->
  exists n,
    dfloor (ddiv (dmul (lit 1 10) (of_int max_iterations))
              (of_int (eval_elbo_ this))) = Some n
    /\ cb_size this max_iterations = Some (Z.max n 2).
Proof.
  intros Hmi Hev. unfold cb_size.
  destruct (quotient_normal _ _ Hmi Hev) as (m & e & -> & Hd & He).
  destruct (dfloor_normal m e ltac:(lia)) as [Hfl Htr].
  destruct (scaled_mantissa_bounds m (- e) Hd ltac:(lia))
    as (Hsmall & Hbig & Hmax).
  set (n := Z.pos m / 2 ^ (- e)) in *.
  exists n. split; [exact Hfl |].
  unfold std_max. rewrite (dlt_normal_two m e Hd).
  destruct (Z.ltb_spec e (-51)) as [Hlt | Hge].
  - assert (Hn : n < 2) by (apply Hsmall; lia).
    change (static_cast_int dtwo) with (Some 2). f_equal. lia.
  - assert (Hn : 2 <= n < 2147483648)
      by (split; [apply Hbig | apply Hmax]; lia).
    rewrite (static_cast_int_in_range _ n Htr) by lia. f_equal. lia.
Qed.

Import Scripted.

(** 1000 iterations, an evaluation every 30: [x] is 3.33..., the
    capacity 3. *)
Lemma cb_size_run :
  0 < 1000 <= INT_MAX /\ 0 < eval_elbo_ (advi_eval 30) <= INT_MAX
  /\ dfloor (ddiv (dmul (lit 1 10) (of_int 1000)) (of_int 30)) = Some 3
  /\ cb_size (advi_eval 30) 1000 = Some 3.
Proof.
  assert (H1 : 0 < 1000 <= INT_MAX) by (unfold INT_MAX; lia).
  assert (H2 : 0 < eval_elbo_ (advi_eval 30) <= INT_MAX)
    by (unfold INT_MAX; cbn; lia).
  destruct (cb_size_is_clamped_floor (advi_eval 30) 1000 H1 H2)
    as (n & Hn & Hc).
  assert (E : dfloor (ddiv (dmul (lit 1 10) (of_int 1000)) (of_int 30))
              = Some 3) by (vm_compute; reflexivity).
  cbn [eval_elbo_ advi_eval] in Hn. rewrite E in Hn. injection Hn as <-.
  split; [exact H1 |]. split; [exact H2 |]. split; [exact E |]. exact Hc.
Defined.

(** 25 iterations, an evaluation at every one: [x] is 2.5, whose ceiling
    is 3, and the capacity is 2. *)
Lemma cb_size_truncates :
  cb_size (advi_eval 1) 25 = Some 2
  /\ capacity_by_ceiling (advi_eval 1) 25 = 3
  /\ dceil (ddiv (dmul (lit 1 10) (of_int 25)) (of_int 1)) = Some 3
  /\ cb_size (advi_eval 1) 25 <> Some (capacity_by_ceiling (advi_eval 1) 25).
Proof.
  split; [reflexivity |]. split; [reflexivity |]. split; [reflexivity |].
  vm_compute. discriminate.
Qed.

End BufferFacts.

(* ================================================================== *)
(** ** Binary64: products that stay positive *)
(* ================================================================== *)

Module PositivityFacts.

Import IEEEFacts RoundingFacts.

Lemma pow2_le_digits (p : positive) (k : Z) :
  k <= Z.pos (digits2_pos p) - 1 -> 2 ^ k <= Z.pos p.
Proof.
  intros Hk. pose proof (digits_bounds p) as [Hlo _].
  destruct (Z.lt_ge_cases k 0) as [Hneg | Hpos].
  - rewrite Z.pow_neg_r by exact Hneg. lia.
  - apply Z.le_trans with (2 := Hlo). apply Z.pow_le_mono_r; lia.
Qed.

(** One shift of [shr_fexp] keeps a magnitude that is at least the
    smallest subnormal positive. *)
Lemma shr_fexp_positive (m : positive) (e : Z) (l : location) :
  2 ^ (-1074 - e) <= Z.pos m ->
  0 < shr_m (fst (shr_fexp prec emax (Z.pos m) e l)).
Proof.
  intros Hm. unfold shr_fexp, fexp, emin, prec, emax. cbn [Zdigits2].
  set (d := Z.pos (digits2_pos m)).
  unfold shr.
  destruct (Z.max (d + e - 53) (3 - 1024 - 53) - e) as [| n | n] eqn:En;
    cbn [fst]; try (rewrite shr_record_of_loc_m; lia).
  rewrite iter_shr_1_div by (rewrite shr_record_of_loc_m; lia).
  rewrite shr_record_of_loc_m.
  assert (Hn : 2 ^ Z.pos n <= Z.pos m).
  { destruct (Z.max_spec (d + e - 53) (3 - 1024 - 53)) as [[_ Hmax] | [_ Hmax]].
    - replace (Z.pos n) with (-1074 - e) by lia. exact Hm.
    - apply pow2_le_digits. fold d. lia. }
  assert (Hpow : 0 < 2 ^ Z.pos n) by (apply Z.pow_pos_nonneg; lia).
  apply Z.div_str_pos. lia.
Qed.

Lemma round_nearest_even_ge (m : Z) (l : location) :
  m <= round_nearest_even m l.
Proof.
  unfold round_nearest_even.
  destruct l as [| []]; try destruct (Z.even m); lia.
Qed.

(** A shift either does nothing or ends at a canonical exponent. *)
Lemma shr_fexp_cases (m e : Z) (l : location) :
  shr_fexp prec emax m e l = (shr_record_of_loc m l, e)
  \/ -1074 <= snd (shr_fexp prec emax m e l).
Proof.
  unfold shr_fexp, shr.
  destruct (fexp prec emax (Zdigits2 m + e) - e) eqn:E;
    [left; reflexivity | right | left; reflexivity].
  cbn [snd]. unfold fexp, emin, prec, emax in *. lia.
Qed.

(** Rounding a magnitude that is at least the smallest subnormal gives a
    positive double. *)
Lemma binary_round_aux_positive (m : positive) (e : Z) (l : location) :
  2 ^ (-1074 - e) <= Z.pos m ->
  dlt dzero (binary_round_aux prec emax false (Z.pos m) e l) = true.
Proof.
  intros Hm. unfold binary_round_aux.
  pose proof (shr_fexp_positive m e l Hm) as H1.
  pose proof (shr_fexp_cases (Z.pos m) e l) as Hc.
  destruct (shr_fexp prec emax (Z.pos m) e l) as [mrs' e'].
  cbn [fst snd] in H1, Hc.
  pose proof (round_nearest_even_ge (shr_m mrs') (loc_of_shr_record mrs'))
    as H2.
  destruct (round_nearest_even (shr_m mrs') (loc_of_shr_record mrs'))
    as [| m2 | m2]; try lia.
  assert (H3 : 0 < shr_m (fst (shr_fexp prec emax (Z.pos m2) e' loc_Exact))).
  { apply shr_fexp_positive.
    destruct Hc as [[= -> ->] | He'].
    - rewrite shr_record_of_loc_m in H2.
      exact (Z.le_trans _ _ _ Hm H2).
    - destruct (Z.eq_dec (-1074 - e') 0) as [E0 | E0].
      + rewrite E0. apply (Pos2Z.pos_le_pos 1 m2), Pos.le_1_l.
      + rewrite Z.pow_neg_r by lia. apply Pos2Z.is_nonneg. }
  destruct (shr_fexp prec emax (Z.pos m2) e' loc_Exact) as [mrs'' e''].
  cbn [fst] in H3.
  destruct (shr_m mrs'') as [| m3 | m3]; try lia.
  destruct (e'' <=? emax - prec); reflexivity.
Qed.

(** The exponent of a valid finite double is at least [emin]. *)
Lemma valid_exponent (s : bool) (m : positive) (e : Z) :
  valid_binary prec emax (S754_finite s m e) = true -> -1074 <= e.
Proof.
  cbn [valid_binary]. unfold bounded, canonical_mantissa, fexp, emin, prec,
    emax.
  intros H. apply andb_true_iff in H as [H _]. apply Z.eqb_eq in H. lia.
Qed.

(** A positive valid double times a positive [int] is positive. *)
Lemma dmul_of_int_positive (x : double) (l : Z) :
  valid_binary prec emax x = true -> dlt dzero x = true ->
  0 < l <= INT_MAX ->
  dlt dzero (dmul x (of_int l)) = true.
Proof.
  intros Hv Hx Hl.
  destruct (of_int_normal l Hl) as (ml & el & -> & Hd & Hel).
  destruct x as [sx | [] | | [] mx ex]; try discriminate Hx; try reflexivity.
  pose proof (valid_exponent _ _ _ Hv) as Hex.
  unfold dmul, SFmul. cbn [xorb].
  apply binary_round_aux_positive.
  rewrite Pos2Z.inj_mul.
  assert (H1 : 2 ^ (-1074 - (ex + el)) <= Z.pos ml)
    by (apply pow2_le_digits; lia).
  apply Z.le_trans with (1 := H1).
  clear. nia.
Qed.

End PositivityFacts.

(* ================================================================== *)
(** ** Static HMC: what the constructor and the setters keep *)
(* ================================================================== *)

Module SamplerInvariants.

Import Hmc IEEEFacts PositivityFacts.

Section Invariants.

Variable RNG : Type.
Implicit Types (s : base_static_hmc RNG) (e t : double).

Lemma update_L_at_least_one s s' :
  update_L_ RNG s = Some s' -> 1 <= L_ RNG s'.
Proof.
  unfold update_L_.
  destruct (static_cast_int _) as [l |]; [| discriminate].
  intros [= <-]. cbn. destruct (Z.ltb_spec l 1); lia.
Qed.

Lemma run_setter_at_least_one s (c : setter_call) s' :
  1 <= L_ RNG s -> run_setter RNG s c = Some s' -> 1 <= L_ RNG s'.
Proof.
  intros HL. destruct c as [e t | e l | t | e]; cbn [run_setter];
    unfold set_nominal_stepsize_and_T, set_nominal_stepsize_and_L, set_T,
      set_nominal_stepsize.
  - destruct (dgt e dzero && dgt t dzero);
      [apply update_L_at_least_one | intros [= <-]; exact HL].
  - destruct (dgt e dzero); cbn [andb]; [| intros [= <-]; exact HL].
    destruct (Z.gtb_spec l 0); intros [= <-]; [cbn; lia | exact HL].
  - destruct (dgt t dzero);
      [apply update_L_at_least_one | intros [= <-]; exact HL].
  - destruct (dgt e dzero);
      [apply update_L_at_least_one | intros [= <-]; exact HL].
Qed.

(** X1: every sampler that the constructor and the setters can produce
    takes at least one leapfrog step: [get_L() >= 1]. *)
Theorem configured_step_count_at_least_one s :
  configured RNG s -> 1 <= get_L RNG s.
Proof.
  induction 1 as [z nom eps r s Hnew | s c s' _ IH Hset].
  - exact (update_L_at_least_one _ _ Hnew).
  - exact (run_setter_at_least_one _ _ _ IH Hset).
Qed.

(** X2: with both arguments positive, setting the nominal step size and
    then the integration time, or the integration time and then the
    nominal step size, ends where [set_nominal_stepsize_and_T] ends,
    provided the first of the two calls is defined. *)
Theorem setters_compose s e t :
  dgt e dzero = true -> dgt t dzero = true ->
  (forall s1, set_nominal_stepsize RNG s e = Some s1 ->
              set_T RNG s1 t = set_nominal_stepsize_and_T RNG s e t)
  /\ (forall s1, set_T RNG s t = Some s1 ->
                 set_nominal_stepsize RNG s1 e
                 = set_nominal_stepsize_and_T RNG s e t).
Proof.
  intros He Ht.
  unfold set_nominal_stepsize, set_T, set_nominal_stepsize_and_T.
  rewrite He, Ht. cbn [andb].
  split; intros s1; unfold update_L_ at 1;
    destruct (static_cast_int _) as [l |]; try discriminate;
    intros [= <-]; cbn [nom_epsilon_ T_ z_ epsilon_ rand_ L_];
    rewrite ?He, ?Ht; reflexivity.
Qed.

Lemma update_L_settings s s' :
  update_L_ RNG s = Some s' ->
  nom_epsilon_ RNG s' = nom_epsilon_ RNG s /\ T_ RNG s' = T_ RNG s.
Proof.
  unfold update_L_.
  destruct (static_cast_int _) as [l |]; [| discriminate].
  intros [= <-]. split; reflexivity.
Qed.

(** X3: a setter called with C++ values keeps the nominal step size and
    the integration time positive; in particular the product
    [epsilon * L] that [set_nominal_stepsize_and_L] stores as the time
    is positive. *)
Theorem setters_keep_settings_positive s (c : setter_call) s' :
  positive_settings RNG s -> well_typed_call c = true ->
  run_setter RNG s c = Some s' ->
  positive_settings RNG s'.
Proof.
  unfold positive_settings. intros [Hn Ht] Hc.
  destruct c as [e t | e l | t | e]; cbn [run_setter well_typed_call] in *;
    unfold set_nominal_stepsize_and_T, set_nominal_stepsize_and_L, set_T,
      set_nominal_stepsize.
  - destruct (dgt e dzero) eqn:He, (dgt t dzero) eqn:Hpt; cbn [andb];
      try (intros [= <-]; split; assumption).
    intros Hs. apply update_L_settings in Hs as [-> ->]. split; assumption.
  - destruct (dgt e dzero) eqn:He; cbn [andb];
      [| intros [= <-]; split; assumption].
    destruct (Z.gtb_spec l 0) as [Hl | Hl];
      intros [= <-]; [| split; assumption].
    cbn [nom_epsilon_ T_]. split; [exact He |].
    apply andb_true_iff in Hc as [Hc Hmax].
    apply andb_true_iff in Hc as [Hv _].
    apply Z.leb_le in Hmax.
    apply dmul_of_int_positive; [exact Hv | exact He | lia].
  - destruct (dgt t dzero) eqn:Hpt; [| intros [= <-]; split; assumption].
    intros Hs. apply update_L_settings in Hs as [-> ->]. split; assumption.
  - destruct (dgt e dzero) eqn:He; [| intros [= <-]; split; assumption].
    intros Hs. apply update_L_settings in Hs as [-> ->]. split; assumption.
Qed.

End Invariants.

Import Scripted.

Lemma configured_run :
  configured RNG (sampler0 []) /\ 1 <= get_L RNG (sampler0 []).
Proof.
  assert (Hc : configured RNG (sampler0 [])).
  { apply (configured_new RNG (mk_ps_point [dzero] [dzero] dzero [dzero])
             done done [] (sampler0 [])). reflexivity. }
  split; [exact Hc |].
  exact (configured_step_count_at_least_one RNG (sampler0 []) Hc).
Defined.

Lemma setters_compose_run :
  dgt (lit 1 2) dzero = true /\ dgt dtwo dzero = true
  /\ (forall s1, set_nominal_stepsize RNG (sampler0 []) (lit 1 2) = Some s1 ->
                 set_T RNG s1 dtwo
                 = set_nominal_stepsize_and_T RNG (sampler0 []) (lit 1 2) dtwo)
  /\ (forall s1, set_T RNG (sampler0 []) dtwo = Some s1 ->
                 set_nominal_stepsize RNG s1 (lit 1 2)
                 = set_nominal_stepsize_and_T RNG (sampler0 []) (lit 1 2) dtwo).
Proof.
  split; [reflexivity |]. split; [reflexivity |].
  exact (setters_compose RNG (sampler0 []) (lit 1 2) dtwo eq_refl eq_refl).
Defined.

Lemma settings_positive_run :
  positive_settings RNG (sampler0 [])
  /\ well_typed_call (call_set_nominal_stepsize_and_L (lit 1 2) 3) = true
  /\ run_setter RNG (sampler0 []) (call_set_nominal_stepsize_and_L (lit 1 2) 3)
     = Some (mk_sampler RNG (z_ RNG (sampler0 [])) (lit 1 2)
               (epsilon_ RNG (sampler0 [])) [] (dmul (lit 1 2) (of_int 3)) 3)
  /\ positive_settings RNG
       (mk_sampler RNG (z_ RNG (sampler0 [])) (lit 1 2)
          (epsilon_ RNG (sampler0 [])) [] (dmul (lit 1 2) (of_int 3)) 3).
Proof.
  split; [split; reflexivity |]. split; [reflexivity |].
  split; [reflexivity |].
  exact (setters_keep_settings_positive RNG (sampler0 [])
           (call_set_nominal_stepsize_and_L (lit 1 2) 3) _
           (conj eq_refl eq_refl) eq_refl eq_refl).
Defined.

End SamplerInvariants.

(* ================================================================== *)
(** ** Static HMC: the acceptance step of [transition] *)
(* ================================================================== *)

Module AcceptanceFacts.

Import Hmc IEEEFacts TransitionFacts.

(** A number that is at least 1 and not above 1 is the double 1. *)
Lemma dle_one_not_gt (a : double) :
  dle done a = true -> dgt a done = false -> a = done.
Proof.
  unfold dle, dgt, SFleb, SFltb.
  change done with (S754_finite false 4503599627370496 (-52)).
  remember 4503599627370496%positive as c eqn:Ec.
  destruct a as [sa | sa | | sa m e]; cbn [SFcompare];
    try destruct sa; try discriminate.
  rewrite Pos.compare_cont_spec.
  destruct (Z.compare_spec (-52) e) as [<- | Hlt | Hgt]; try discriminate.
  destruct (c ?= m)%positive eqn:Ecmp; cbn [Pos.switch_Eq]; try discriminate.
  apply Pos.compare_eq in Ecmp. subst m. reflexivity.
Qed.

Section Acceptance.

Variable RNG : Type.
Variable sample_stepsize : double -> RNG -> double * RNG.
Variable sample_p : ps_point -> RNG -> ps_point * RNG.
Variable init : ps_point -> ps_point.
Variable H : ps_point -> double.
Variable V_of : ps_point -> double.
Variable evolve : ps_point -> double -> ps_point.
Variable rand_uniform : RNG -> double * RNG.
Variable exp : double -> double.

Local Abbreviation transition :=
  (transition RNG sample_stepsize sample_p init H V_of evolve rand_uniform exp).
Local Abbreviation start := (start RNG sample_stepsize sample_p init).
Local Abbreviation proposal := (proposal RNG sample_stepsize sample_p init evolve).
Local Abbreviation acceptProb_of :=
  (acceptProb_of RNG sample_stepsize sample_p init H evolve exp).
Local Abbreviation rejects :=
  (rejects RNG sample_stepsize sample_p init H evolve rand_uniform exp).

Implicit Types (s : base_static_hmc RNG) (init_sample : sample).

Lemma transition_generator s init_sample :
  rand_ RNG (snd (transition s init_sample))
  = if dlt (acceptProb_of s init_sample) done
    then snd (rand_uniform (snd (start s init_sample)))
    else snd (start s init_sample).
Proof.
  unfold Hmc.transition, Hmc.acceptProb_of, Hmc.H0_of, Hmc.h_of, Hmc.proposal,
    Hmc.start.
  destruct (sample_stepsize _ _) as [eps r0].
  destruct (sample_p _ r0) as [z r1]. cbn [fst snd].
  destruct (dlt _ done); [destruct (rand_uniform r1) as [u r2];
                          destruct (dgt u _) |]; reflexivity.
Qed.

(** X4: the sample returned describes the point the sampler is left at
    (its position and minus its potential), the step size kept is the one
    drawn for this transition, and the nominal step size, the integration
    time and the step count are unchanged; [get_sampler_params] then
    reports that step size and that time. *)
Theorem transition_sample_matches_state s init_sample (values : list double) :
  cont_params (fst (transition s init_sample))
  = q (z_ RNG (snd (transition s init_sample)))
  /\ log_prob (fst (transition s init_sample))
     = dopp (V_of (z_ RNG (snd (transition s init_sample))))
  /\ epsilon_ RNG (snd (transition s init_sample))
     = fst (sample_stepsize (nom_epsilon_ RNG s) (rand_ RNG s))
  /\ nom_epsilon_ RNG (snd (transition s init_sample)) = nom_epsilon_ RNG s
  /\ get_T RNG (snd (transition s init_sample)) = get_T RNG s
  /\ get_L RNG (snd (transition s init_sample)) = get_L RNG s
  /\ get_sampler_params RNG (snd (transition s init_sample)) values
     = values ++ [fst (sample_stepsize (nom_epsilon_ RNG s) (rand_ RNG s));
                  get_T RNG s].
Proof.
  unfold get_sampler_params, get_T, get_L, Hmc.transition.
  destruct (sample_stepsize _ _) as [eps r0].
  destruct (sample_p _ r0) as [z r1].
  destruct (dlt _ done); [destruct (rand_uniform r1) as [u r2];
                          destruct (dgt u _) |]; repeat split.
Qed.

(** X5: the uniform generator is consulted exactly when the acceptance
    probability first computed is below 1; otherwise the generator is
    left as the momentum draw left it. *)
Theorem uniform_drawn_only_below_one s init_sample :
  (dlt (acceptProb_of s init_sample) done = true /\
   rand_ RNG (snd (transition s init_sample))
   = snd (rand_uniform (snd (start s init_sample))))
  \/ (dlt (acceptProb_of s init_sample) done = false /\
      rand_ RNG (snd (transition s init_sample)) = snd (start s init_sample)).
Proof.
  rewrite transition_generator.
  destruct (dlt (acceptProb_of s init_sample) done); [left | right];
    split; reflexivity.
Qed.

(** X6: the acceptance probability reported is never above 1, whatever
    [exp] returns. *)
Theorem accept_probability_not_above_one s init_sample :
  dgt (accept_probability (fst (transition s init_sample))) done = false.
Proof.
  rewrite transition_accept_probability.
  destruct (dgt (acceptProb_of s init_sample) done) eqn:Hgt;
    [reflexivity | exact Hgt].
Qed.

(** X7: when the acceptance probability first computed is NaN, the
    proposal is accepted, NaN is reported, and no uniform is drawn. *)
Theorem nan_probability_accepts s init_sample :
  isnan (acceptProb_of s init_sample) = true ->
  z_ RNG (snd (transition s init_sample)) = proposal s init_sample
  /\ accept_probability (fst (transition s init_sample)) = NaN
  /\ rand_ RNG (snd (transition s init_sample)) = snd (start s init_sample).
Proof.
  intros Hnan.
  rewrite transition_state, transition_accept_probability,
    transition_generator.
  unfold Hmc.rejects.
  destruct (Hmc.acceptProb_of _ _ _ _ _ _ _ _ _); try discriminate.
  repeat split.
Qed.

(** X8: when the acceptance probability first computed is at least 1,
    the proposal is accepted, exactly 1 is reported, and no uniform is
    drawn. *)
Theorem sure_proposal_accepts s init_sample :
  dle done (acceptProb_of s init_sample) = true ->
  z_ RNG (snd (transition s init_sample)) = proposal s init_sample
  /\ accept_probability (fst (transition s init_sample)) = done
  /\ rand_ RNG (snd (transition s init_sample)) = snd (start s init_sample).
Proof.
  intros Hge.
  pose proof (dle_not_gt _ _ Hge) as Hlt.
  change (dgt done (acceptProb_of s init_sample))
    with (dlt (acceptProb_of s init_sample) done) in Hlt.
  rewrite transition_state, transition_accept_probability,
    transition_generator.
  unfold Hmc.rejects. rewrite Hlt. cbn [andb].
  split; [reflexivity |]. split; [| reflexivity].
  destruct (dgt (acceptProb_of s init_sample) done) eqn:Hgt; [reflexivity |].
  exact (dle_one_not_gt _ Hge Hgt).
Qed.

End Acceptance.

Import Scripted.

Lemma nan_probability_blocked_run :
  isnan (acceptProb_run blocked_potential normal_gradient sampler_fast sample0)
  = true
  /\ z_ RNG (snd (transition_run blocked_potential normal_gradient
                    sampler_fast sample0))
     = Hmc.proposal RNG sample_stepsize sample_p
         (init blocked_potential normal_gradient)
         (evolve blocked_potential normal_gradient) sampler_fast sample0
  /\ accept_probability
       (fst (transition_run blocked_potential normal_gradient
               sampler_fast sample0)) = NaN
  /\ rand_ RNG (snd (transition_run blocked_potential normal_gradient
                       sampler_fast sample0))
     = snd (start_run blocked_potential normal_gradient sampler_fast sample0).
Proof.
  split; [reflexivity |].
  exact (nan_probability_accepts RNG sample_stepsize sample_p
           (init blocked_potential normal_gradient) H V_of
           (evolve blocked_potential normal_gradient) next exp_coarse
           sampler_fast sample0 eq_refl).
Defined.

Lemma sure_proposal_spike_run :
  dle done (acceptProb_run spike_potential normal_gradient sampler_fast sample0)
  = true
  /\ z_ RNG (snd (transition_run spike_potential normal_gradient
                    sampler_fast sample0))
     = Hmc.proposal RNG sample_stepsize sample_p
         (init spike_potential normal_gradient)
         (evolve spike_potential normal_gradient) sampler_fast sample0
  /\ accept_probability
       (fst (transition_run spike_potential normal_gradient
               sampler_fast sample0)) = done
  /\ rand_ RNG (snd (transition_run spike_potential normal_gradient
                       sampler_fast sample0))
     = snd (start_run spike_potential normal_gradient sampler_fast sample0).
Proof.
  split; [reflexivity |].
  exact (sure_proposal_accepts RNG sample_stepsize sample_p
           (init spike_potential normal_gradient) H V_of
           (evolve spike_potential normal_gradient) next exp_coarse
           sampler_fast sample0 eq_refl).
Defined.

End AcceptanceFacts.

(* ================================================================== *)
(** ** NUTS: degenerate trajectories *)
(* ================================================================== *)

Module TurnFacts.

Import Hmc Nuts NutsFacts.

Lemma dsub_same (x : double) : dsub x x = dzero \/ dsub x x = NaN.
Proof.
  destruct x as [s | s | | s m e].
  - left. destruct s; reflexivity.
  - right. destruct s; reflexivity.
  - right. reflexivity.
  - left. unfold dsub, SFsub. rewrite Z.sub_diag. reflexivity.
Qed.

Lemma dmul_zero_or_nan (x y : double) :
  zero_or_nan y -> zero_or_nan (dmul x y).
Proof.
  destruct y as [sy | sy | | sy my ey]; cbn; try contradiction; intros _;
    destruct x as [sx | sx | | sx mx ex]; exact I.
Qed.

Lemma dadd_zero_or_nan (x y : double) :
  zero_or_nan x -> zero_or_nan y -> zero_or_nan (dadd x y).
Proof.
  destruct x as [sx | sx | | sx mx ex]; cbn; try contradiction; intros _;
    destruct y as [sy | sy | | sy my ey]; cbn; try contradiction; intros _;
    try exact I.
  destruct sx, sy; exact I.
Qed.

Lemma fold_zero_or_nan (xy : list (double * double)) :
  Forall (fun c => zero_or_nan (snd c)) xy ->
  forall acc, zero_or_nan acc ->
    zero_or_nan
      (fold_left (fun acc c => dadd acc (dmul (fst c) (snd c))) xy acc).
Proof.
  induction 1 as [| c xy Hc _ IH]; intros acc Hacc; [exact Hacc |].
  cbn [fold_left]. apply IH.
  apply dadd_zero_or_nan; [exact Hacc | apply dmul_zero_or_nan; exact Hc].
Qed.

Lemma combine_vsub_same (a : list double) :
  Forall (fun c => zero_or_nan (snd c)) (combine a (vsub a a)).
Proof.
  induction a as [| x a IH]; [constructor |].
  cbn [vsub combine]. constructor; [| exact IH].
  cbn [snd]. destruct (dsub_same x) as [-> | ->]; exact I.
Qed.

Lemma dot_vsub_same (a : list double) : zero_or_nan (dot a (vsub a a)).
Proof.
  unfold dot. apply fold_zero_or_nan; [apply combine_vsub_same | exact I].
Qed.

(** X21: a trajectory of a single point, whose summed momentum [rho]
    is the momentum of that point, does not satisfy the criterion,
    whatever the momentum is. *)
Theorem single_point_stops (z : ps_point) :
  compute_criterion z z (p z) = false.
Proof.
  unfold compute_criterion, dgt.
  pose proof (dot_vsub_same (p z)) as H.
  destruct (dot (p z) (vsub (p z) (p z))); try contradiction; reflexivity.
Qed.

(** NaN is absorbing in the sum of products. *)
Lemma fold_nan (xy : list (double * double)) :
  fold_left (fun acc c => dadd acc (dmul (fst c) (snd c))) xy NaN = NaN.
Proof. induction xy as [| c xy IH]; [reflexivity | exact IH]. Qed.

Lemma dadd_nan_r (x : double) : dadd x NaN = NaN.
Proof. destruct x; reflexivity. Qed.

Lemma dmul_nan_r (x : double) : dmul x NaN = NaN.
Proof. destruct x; reflexivity. Qed.

Lemma dsub_nan_r (x : double) : dsub x NaN = NaN.
Proof. destruct x; reflexivity. Qed.

Lemma fold_nan_product (xy : list (double * double)) :
  Exists (fun c => dmul (fst c) (snd c) = NaN) xy ->
  forall acc,
    fold_left (fun acc c => dadd acc (dmul (fst c) (snd c))) xy acc = NaN.
Proof.
  induction 1 as [c xy Hc | c xy _ IH]; intros acc; cbn [fold_left].
  - rewrite Hc, dadd_nan_r. apply fold_nan.
  - apply IH.
Qed.

(** A NaN coordinate of [rho] or of [p], at an index both vectors
    have, makes the product [p . (rho - p)] NaN. *)
Lemma dot_vsub_nan (a rho : list double) (i : nat) :
  (i < List.length a)%nat -> (i < List.length rho)%nat ->
  nth i a dzero = NaN \/ nth i rho dzero = NaN ->
  dot a (vsub rho a) = NaN.
Proof.
  intros Ha Hr Hnan. unfold dot. apply fold_nan_product.
  revert rho i Ha Hr Hnan.
  induction a as [| x a IH]; intros rho i Ha Hr Hnan;
    [cbn in Ha; lia |].
  destruct rho as [| y rho]; [cbn in Hr; lia |].
  cbn [vsub combine].
  destruct i as [| i].
  - apply Exists_cons_hd. cbn [fst snd nth] in *.
    destruct Hnan as [-> | ->]; [reflexivity |].
    change (dsub NaN x) with NaN. apply dmul_nan_r.
  - apply Exists_cons_tl. apply (IH rho i); cbn in *; try lia. exact Hnan.
Qed.

(** X22: a NaN among the coordinates of [rho], or of the momentum at
    either end, stops the trajectory: the criterion is [false]. *)
Theorem nan_coordinate_stops (start : ps_point) (finish : unit_e_point)
  (rho : list double) (i : nat) :
  List.length (p start) = List.length rho ->
  List.length (p finish) = List.length rho ->
  (i < List.length rho)%nat ->
  nth i rho dzero = NaN \/ nth i (p start) dzero = NaN
  \/ nth i (p finish) dzero = NaN ->
  compute_criterion start finish rho = false.
Proof.
  intros Hs Hf Hi Hnan. apply compute_criterion_nan.
  destruct Hnan as [Hnan | [Hnan | Hnan]].
  - left. rewrite (dot_vsub_nan (p finish) rho i); [reflexivity | lia | lia |].
    right. exact Hnan.
  - right. rewrite (dot_vsub_nan (p start) rho i); [reflexivity | lia | lia |].
    left. exact Hnan.
  - left. rewrite (dot_vsub_nan (p finish) rho i); [reflexivity | lia | lia |].
    left. exact Hnan.
Qed.

Lemma nan_coordinate_run :
  List.length (p (mk_ps_point [dzero; dzero] [done; done] dzero []))
  = List.length [of_int 3; NaN]
  /\ List.length (p (mk_ps_point [dtwo; dtwo] [done; done] dzero []))
     = List.length [of_int 3; NaN]
  /\ (1 < List.length [of_int 3; NaN])%nat
  /\ nth 1 [of_int 3; NaN] dzero = NaN
  /\ compute_criterion (mk_ps_point [dzero; dzero] [done; done] dzero [])
       (mk_ps_point [dtwo; dtwo] [done; done] dzero []) [of_int 3; NaN]
     = false.
Proof.
  split; [reflexivity |]. split; [reflexivity |].
  split; [repeat constructor |]. split; [reflexivity |].
  apply (nan_coordinate_stops
           (mk_ps_point [dzero; dzero] [done; done] dzero [])
           (mk_ps_point [dtwo; dtwo] [done; done] dzero [])
           [of_int 3; NaN] 1 eq_refl eq_refl).
  - repeat constructor.
  - left. reflexivity.
Defined.

End TurnFacts.

(* ================================================================== *)
(** ** ADVI: what [calc_ELBO] reads and writes *)
(* ================================================================== *)

Module ElboTrace.

Import Advi ElboFacts.

Section Trace.

Variable RNG : Type.
Variable Q : Type.
Variable sample : Q -> RNG -> vec * RNG.
Variable entropy : Q -> double.
Variable log_prob : vec -> exn + double.
Variable this : advi.

Local Abbreviation N := (n_monte_carlo_elbo_ this).
Local Abbreviation calc_ELBO := (calc_ELBO RNG Q sample entropy log_prob this).
Local Abbreviation calc_ELBO_loop :=
  (calc_ELBO_loop RNG Q sample log_prob this).
Local Abbreviation draws := (draws RNG Q sample).
Local Abbreviation kept := (kept log_prob).
Local Abbreviation dropped := (dropped log_prob).
Local Abbreviation energy := (energy log_prob).
Local Abbreviation printed := (printed RNG this).
Local Abbreviation drawn := (drawn RNG).
Local Abbreviation dropped_error := (dropped_error this).

Implicit Types (w : world RNG) (variational : Q).




(** [calc_ELBO] never needs more turns than the model allows it. *)
Lemma calc_ELBO_within_fuel variational w :
  within_fuel (fst (calc_ELBO variational w)).
Proof.
  destruct (Z.lt_ge_cases 0 N) as [HN | HN].
  - pose proof (calc_ELBO_loop_ends RNG Q sample log_prob this variational
                  (Z.to_nat (2 * N)) 0 0 dzero w) as He.
    unfold Advi.calc_ELBO, bind.
    destruct (calc_ELBO_loop _ variational 0 0 dzero w) as [[x | e | |] w'];
      cbn [fst] in He |- *; try exact I; apply He; lia.
  - unfold Advi.calc_ELBO, bind.
    rewrite calc_ELBO_loop_done by lia. exact I.
Qed.

End Trace.

Import Scripted.


End ElboTrace.

(* ================================================================== *)
(** ** ADVI: the constructor, the gradient, the main loop and the tuner *)
(* ================================================================== *)

Module EngineFacts.

Import Advi PositivityFacts ElboTrace.

(** The constructor accepts its arguments exactly when the three counts
    are positive, and then stores every argument as given. *)
Lemma check_positive_int_inr (function name : string) (y : Z) :
  check_positive_int function name y = inr tt <-> 0 < y.
Proof.
  unfold check_positive_int. destruct (Z.gtb_spec y 0); split;
    try reflexivity; try discriminate; lia.
Qed.

(** X10: the constructor returns an object exactly when the numbers of
    Monte Carlo draws for the gradient and for the ELBO and the number of
    posterior draws are all positive; the object then holds the arguments
    as given.  The evaluation period [eval_elbo] is not checked. *)
Theorem advi_new_checks_three_counts (cont_params : vec)
  (n_monte_carlo_grad n_monte_carlo_elbo eval_elbo n_posterior_samples : Z)
  (print_stream output_stream diagnostic_stream : bool) (a : advi) :
  advi_new cont_params n_monte_carlo_grad n_monte_carlo_elbo eval_elbo
    n_posterior_samples print_stream output_stream diagnostic_stream = inr a
  <-> (0 < n_monte_carlo_grad /\ 0 < n_monte_carlo_elbo
       /\ 0 < n_posterior_samples)
      /\ a = mk_advi cont_params n_monte_carlo_grad n_monte_carlo_elbo
               eval_elbo n_posterior_samples print_stream output_stream
               diagnostic_stream.
Proof.
  unfold advi_new, check_positive_int.
  destruct (Z.gtb_spec n_monte_carlo_grad 0),
    (Z.gtb_spec n_monte_carlo_elbo 0), (Z.gtb_spec n_posterior_samples 0);
    split; try discriminate; try (intros [[? [? ?]] _]; lia).
  - intros [= <-]. repeat split; assumption.
  - intros [_ ->]. reflexivity.
Qed.

Section Engine.

Variable RNG : Type.
Variable Q : Type.
Variable Q_dim : Z -> Q.
Variable Q_params : vec -> Q.
Variable dimension : Q -> Z.
Variable sample : Q -> RNG -> vec * RNG.
Variable entropy : Q -> double.
Variable calc_grad : Q -> vec -> Z -> RNG -> (exn + Q) * RNG.
Variable square : Q -> Q.
Variable sqrt : Q -> Q.
Variable Qadd : Q -> Q -> Q.
Variable Qscale : double -> Q -> Q.
Variable Qdiv : Q -> Q -> Q.
Variable Qadd_scalar : double -> Q -> Q.
Variable num_params_r : Z.
Variable log_prob : vec -> exn + double.
Variable nth_element : list double -> nat -> list double.
Variable this : advi.

Local Abbreviation calc_ELBO := (calc_ELBO RNG Q sample entropy log_prob this).
Local Abbreviation calc_ELBO_grad :=
  (calc_ELBO_grad RNG Q dimension calc_grad this).
Local Abbreviation adaptive_update :=
  (adaptive_update RNG Q dimension calc_grad square sqrt Qadd Qscale Qdiv
     Qadd_scalar this).
Local Abbreviation convergence_check :=
  (convergence_check RNG Q sample entropy log_prob nth_element this).
Local Abbreviation sga_loop :=
  (sga_loop RNG Q dimension sample entropy calc_grad square sqrt Qadd Qscale
     Qdiv Qadd_scalar log_prob nth_element this).
Local Abbreviation stochastic_gradient_ascent :=
  (stochastic_gradient_ascent RNG Q Q_dim dimension sample entropy calc_grad
     square sqrt Qadd Qscale Qdiv Qadd_scalar num_params_r log_prob
     nth_element this).
Local Abbreviation tune_iterations :=
  (tune_iterations RNG Q dimension calc_grad square sqrt Qadd Qscale Qdiv
     Qadd_scalar this).
Local Abbreviation tune_loop :=
  (tune_loop RNG Q Q_dim Q_params dimension sample entropy calc_grad square
     sqrt Qadd Qscale Qdiv Qadd_scalar num_params_r log_prob this).
Local Abbreviation tune :=
  (tune RNG Q Q_dim Q_params dimension sample entropy calc_grad square
     sqrt Qadd Qscale Qdiv Qadd_scalar num_params_r log_prob this).

Implicit Types (w : world RNG) (variational elbo_grad params_prop : Q)
  (t : tracking).

Lemma bind_within_fuel {A B : Type} (c : M RNG A) (k : A -> M RNG B) w :
  within_fuel (fst (c w)) ->
  (forall a w', within_fuel (fst (k a w'))) ->
  within_fuel (fst (bind RNG c k w)).
Proof.
  unfold bind. destruct (c w) as [[a | e | |] w']; cbn [fst];
    intros Hc Hk; try exact I; [apply Hk | contradiction].
Qed.

Lemma lift_within_fuel {A : Type} (r : exn + A) w :
  within_fuel (fst (lift RNG r w)).
Proof. destruct r; exact I. Qed.

Lemma of_option_within_fuel {A : Type} (o : option A) w :
  within_fuel (fst (of_option RNG o w)).
Proof. destruct o; exact I. Qed.

Lemma with_rng_within_fuel {A : Type} (f : RNG -> A * RNG) w :
  within_fuel (fst (with_rng RNG f w)).
Proof. unfold with_rng. destruct (f (rng RNG w)); exact I. Qed.

(** *** [calc_ELBO_grad] *)

(** X11: [calc_ELBO_grad] checks the sizes before it draws: when the
    gradient and the family differ in dimension, or the family and the
    parameter vector, it throws [std::invalid_argument] naming the two
    sizes and leaves the generator and the streams as they were; when
    the sizes agree, the result is that of the family's [calc_grad], run
    on the generator. *)
Theorem calc_ELBO_grad_checks_sizes variational elbo_grad w :
  (dimension elbo_grad <> dimension variational ->
   calc_ELBO_grad variational elbo_grad w
   = (Throw (invalid_argument "stan::variational::advi::calc_ELBO_grad"
               "Dimension of elbo_grad" (dimension elbo_grad)
               "Dimension of variational q" (dimension variational)), w))
  /\ (dimension elbo_grad = dimension variational ->
      dimension variational
      <> Z.of_nat (List.length (cont_params_ this)) ->
      calc_ELBO_grad variational elbo_grad w
      = (Throw (invalid_argument "stan::variational::advi::calc_ELBO_grad"
                  "Dimension of variational q" (dimension variational)
                  "Dimension of variables in model"
                  (Z.of_nat (List.length (cont_params_ this)))), w))
  /\ (dimension elbo_grad = dimension variational ->
      dimension variational = Z.of_nat (List.length (cont_params_ this)) ->
      calc_ELBO_grad variational elbo_grad w
      = (match fst (calc_grad variational (cont_params_ this)
                      (n_monte_carlo_grad_ this) (rng RNG w)) with
         | inl e => Throw e
         | inr g => Return g
         end,
         drawn RNG (snd (calc_grad variational (cont_params_ this)
                           (n_monte_carlo_grad_ this) (rng RNG w))) w)).
Proof.
  unfold Advi.calc_ELBO_grad, bind, lift, check_size_match, throw, ret,
    with_rng.
  split; [| split].
  - intros Hne. apply Z.eqb_neq in Hne. rewrite Hne. reflexivity.
  - intros Heq Hne. apply Z.eqb_eq in Heq. apply Z.eqb_neq in Hne.
    rewrite Heq, Hne. reflexivity.
  - intros Heq Heq'. apply Z.eqb_eq in Heq. apply Z.eqb_eq in Heq'.
    rewrite Heq, Heq'.
    destruct (calc_grad _ _ _ _) as [[e | g] r]; reflexivity.
Qed.

Lemma calc_ELBO_grad_within_fuel variational elbo_grad w :
  within_fuel (fst (calc_ELBO_grad variational elbo_grad w)).
Proof.
  unfold Advi.calc_ELBO_grad.
  apply bind_within_fuel; [apply lift_within_fuel | intros _ w1].
  apply bind_within_fuel; [apply lift_within_fuel | intros _ w2].
  apply bind_within_fuel; [apply with_rng_within_fuel | intros r w3].
  apply lift_within_fuel.
Qed.

Lemma adaptive_update_within_fuel (eta : double) (iter : Z)
  variational elbo_grad params_prop w :
  within_fuel
    (fst (adaptive_update eta iter variational elbo_grad params_prop w)).
Proof.
  unfold Advi.adaptive_update.
  apply bind_within_fuel; [apply calc_ELBO_grad_within_fuel | intros g w1].
  exact I.
Qed.

Lemma convergence_check_within_fuel (tol_rel_obj : double) (iter_main : Z)
  variational t w :
  within_fuel (fst (convergence_check tol_rel_obj iter_main variational t w)).
Proof.
  unfold Advi.convergence_check.
  apply bind_within_fuel; [apply calc_ELBO_within_fuel | intros e w1].
  apply bind_within_fuel; [apply of_option_within_fuel | intros med w2].
  unfold bind, print, write_diag, ret.
  repeat match goal with
         | |- context [if ?b then _ else _] => destruct b
         end; exact I.
Qed.

(** *** [stochastic_gradient_ascent] *)

Lemma sga_loop_within_fuel (eta tol_rel_obj : double) (max_iterations : Z) :
  forall (fuel : nat) (iter_main : Z) variational elbo_grad params_prop t w,
    iter_main <= max_iterations ->
    (Z.to_nat (max_iterations - iter_main + 1) <= fuel)%nat ->
    within_fuel
      (fst (sga_loop fuel eta tol_rel_obj max_iterations iter_main
              variational elbo_grad params_prop t w)).
Proof.
  induction fuel as [| fuel IH];
    intros iter_main variational elbo_grad params_prop t w Hi Hf; [lia |].
  cbn [Advi.sga_loop].
  apply bind_within_fuel;
    [apply adaptive_update_within_fuel | intros [[v g] pp] w1].
  apply bind_within_fuel.
  { destruct (eval_elbo_ this =? 0); [exact I |].
    destruct (Z.rem iter_main (eval_elbo_ this) =? 0);
      [apply convergence_check_within_fuel | exact I]. }
  intros t1 w2.
  destruct (Z.eqb_spec iter_main max_iterations) as [Heq | Hne].
  - unfold bind, print, ret. cbn. exact I.
  - unfold bind at 1, ret at 1.
    destruct (do_more_iterations t1); [| exact I].
    apply IH; lia.
Qed.

(** X12: the main loop of [stochastic_gradient_ascent] makes at most
    [max_iterations] turns, whatever the model, the family and the
    arguments are. *)
Theorem sga_makes_at_most_max_iterations variational
  (eta tol_rel_obj : double) (max_iterations : Z) w :
  within_fuel
    (fst (stochastic_gradient_ascent variational eta tol_rel_obj
            max_iterations w)).
Proof.
  unfold Advi.stochastic_gradient_ascent.
  apply bind_within_fuel; [apply lift_within_fuel | intros _ w1].
  apply bind_within_fuel; [apply lift_within_fuel | intros _ w2].
  unfold check_positive_int.
  destruct (Z.gtb_spec max_iterations 0) as [Hmax | Hmax]; [| exact I].
  apply bind_within_fuel; [exact I | intros _ w3].
  apply bind_within_fuel; [apply of_option_within_fuel | intros cb w4].
  apply bind_within_fuel; [exact I | intros _ w5].
  apply sga_loop_within_fuel; lia.
Qed.

(** The window of the main loop is created with the capacity
    [cb_size]: once the arguments have passed the checks, the loop is
    entered at iteration 1 with an empty window of that capacity, after
    the header has been printed. *)
Lemma sga_window_capacity variational (eta tol_rel_obj : double)
  (max_iterations : Z) w (c : Z) :
  dle dzero eta = true -> dgt tol_rel_obj dzero = true ->
  0 < max_iterations ->
  cb_size this max_iterations = Some c ->
  stochastic_gradient_ascent variational eta tol_rel_obj max_iterations w
  = sga_loop (Z.to_nat max_iterations) eta tol_rel_obj max_iterations 1
      variational (Q_dim num_params_r) (Q_dim num_params_r)
      (mk_tracking dzero (dopp DBL_MAX) DBL_MIN DBL_MAX DBL_MAX DBL_MAX
         (mk_cb (Z.to_nat c) []) true)
      (printed RNG this
         [Str "  iter"; Str "       ELBO"; Str "   delta_ELBO_mean";
          Str "   delta_ELBO_med"; Str "   notes "; Endl] w).
Proof.
  intros He Ht Hmax Hc.
  unfold Advi.stochastic_gradient_ascent, bind, lift, check_nonnegative,
    check_positive, check_positive_int, throw, ret, of_option, print.
  rewrite He, Ht, Hc.
  destruct (Z.gtb_spec max_iterations 0) as [_ | Hneg]; [reflexivity | lia].
Qed.

(** X13: an argument that fails its check makes
    [stochastic_gradient_ascent] throw a domain error before anything is
    drawn or written: a step size that is negative or NaN, a tolerance
    that is not positive, or a number of iterations that is not
    positive. *)
Theorem sga_rejects_arguments variational (eta tol_rel_obj : double)
  (max_iterations : Z) w :
  dle dzero eta = false \/ dgt tol_rel_obj dzero = false
  \/ max_iterations <= 0 ->
  exists name y msg,
    stochastic_gradient_ascent variational eta tol_rel_obj max_iterations w
    = (Throw (domain_error
                "stan::variational::advi.stochastic_gradient_ascent"
                name y "is " msg), w).
Proof.
  unfold Advi.stochastic_gradient_ascent, bind, lift, check_nonnegative,
    check_positive, check_positive_int, throw, ret.
  intros H.
  destruct (dle dzero eta) eqn:He; [| do 3 eexists; reflexivity].
  destruct (dgt tol_rel_obj dzero) eqn:Ht; [| do 3 eexists; reflexivity].
  destruct (Z.gtb_spec max_iterations 0) as [Hmax | Hmax];
    [| do 3 eexists; reflexivity].
  destruct H as [H | [H | H]]; [discriminate | discriminate | lia].
Qed.

(** X14: with [eval_elbo_ = 0], which the constructor lets through, a
    call whose arguments pass the checks has undefined behaviour: the
    size of the window is the conversion of [+infinity] to [int]. *)
Theorem sga_undefined_without_evaluation_period variational
  (eta tol_rel_obj : double) (max_iterations : Z) w :
  eval_elbo_ this = 0 ->
  dle dzero eta = true -> dgt tol_rel_obj dzero = true ->
  0 < max_iterations <= INT_MAX ->
  stochastic_gradient_ascent variational eta tol_rel_obj max_iterations w
  = (Undefined, w).
Proof.
  intros H0 He Ht Hmax.
  unfold Advi.stochastic_gradient_ascent, bind, lift, check_nonnegative,
    check_positive, check_positive_int, throw, ret.
  rewrite He, Ht.
  destruct (Z.gtb_spec max_iterations 0) as [_ | Hneg]; [| lia].
  unfold cb_size. rewrite H0.
  pose proof (dmul_of_int_positive (lit 1 10) max_iterations eq_refl eq_refl
                Hmax) as Hpos.
  destruct (dmul (lit 1 10) (of_int max_iterations)) as [s | s | | s m e];
    try discriminate; destruct s; try discriminate; reflexivity.
Qed.

(** *** [tune] *)

Lemma tune_iterations_within_fuel (eta : double) :
  forall (n : nat) (iter_tune : Z) variational elbo_grad params_prop w,
    within_fuel
      (fst (tune_iterations n iter_tune eta variational elbo_grad
              params_prop w)).
Proof.
  induction n as [| n IH]; intros iter_tune variational elbo_grad
    params_prop w; [exact I |].
  cbn [Advi.tune_iterations].
  apply bind_within_fuel;
    [apply adaptive_update_within_fuel | intros [[v g] pp] w1].
  apply IH.
Qed.

Lemma tune_loop_within_fuel :
  print_stream_ this = true ->
  forall (fuel : nat) (elbo_init : double) variational elbo_grad params_prop
         (eta : double) (eta_sequence : list double) (elbo_best : double)
         (eta_best : option double) w,
    (List.length eta_sequence < fuel)%nat ->
    within_fuel
      (fst (tune_loop fuel elbo_init variational elbo_grad params_prop
              eta eta_sequence elbo_best eta_best w)).
Proof.
  intros Hprint.
  induction fuel as [| fuel IH];
    intros elbo_init variational elbo_grad params_prop eta eta_sequence
      elbo_best eta_best w Hf; [lia |].
  cbn [Advi.tune_loop].
  apply bind_within_fuel; [exact I | intros _ w1].
  apply bind_within_fuel;
    [apply tune_iterations_within_fuel | intros [[v g] pp] w2].
  apply bind_within_fuel; [apply calc_ELBO_within_fuel | intros elbo w3].
  destruct (dlt elbo elbo_best && dgt elbo_best elbo_init).
  { apply bind_within_fuel; [exact I | intros _ w4].
    apply bind_within_fuel; [apply of_option_within_fuel | intros b w5].
    exact I. }
  destruct eta_sequence as [| next rest].
  - destruct (dgt elbo elbo_init).
    + apply bind_within_fuel; [exact I | intros _ w4]. exact I.
    + rewrite Hprint.
      apply bind_within_fuel; [exact I | intros _ w4]. exact I.
  - apply bind_within_fuel; [exact I | intros _ w4].
    apply IH. cbn [List.length] in Hf. lia.
Qed.

(** X15: with a print stream, the tuning loop makes at most five
    turns, one for each step size of the sequence. *)
Theorem tune_makes_at_most_five_turns variational w :
  print_stream_ this = true ->
  within_fuel (fst (tune 5 variational w)).
Proof.
  intros Hprint. unfold Advi.tune. cbn [eta_sequence_0].
  apply bind_within_fuel; [apply calc_ELBO_within_fuel | intros e w1].
  apply tune_loop_within_fuel; [exact Hprint | cbn; lia].
Qed.

Lemma tune_loop_result :
  forall (fuel : nat) (elbo_init : double) variational elbo_grad params_prop
         (eta : double) (eta_sequence : list double) (elbo_best : double)
         (eta_best : option double) w (r : double) (v' : Q),
    In eta eta_sequence_0 -> incl eta_sequence eta_sequence_0 ->
    (forall b, eta_best = Some b -> In b eta_sequence_0) ->
    fst (tune_loop fuel elbo_init variational elbo_grad params_prop
           eta eta_sequence elbo_best eta_best w) = Return (r, v') ->
    (r = dzero /\ print_stream_ this = true)
    \/ (In r eta_sequence_0 /\ v' = Q_params (cont_params_ this)).
Proof.
  induction fuel as [| fuel IH];
    intros elbo_init variational elbo_grad params_prop eta eta_sequence
      elbo_best eta_best w r v' Heta Hseq Hbest; [discriminate |].
  cbn [Advi.tune_loop]. unfold bind at 1, print at 1.
  unfold bind at 1.
  destruct (tune_iterations _ _ _ _ _ _ _) as [[[[v g] pp] | e | |] w2];
    try discriminate.
  unfold bind at 1.
  destruct (calc_ELBO v w2) as [[elbo | e | |] w3]; try discriminate.
  destruct (dlt elbo elbo_best && dgt elbo_best elbo_init).
  { unfold bind, print, of_option, ret, undefined.
    destruct eta_best as [b |]; [| discriminate].
    cbn [fst]. intros [= <- <-]. right. split; [| reflexivity].
    apply Hbest. reflexivity. }
  destruct eta_sequence as [| next rest].
  - destruct (dgt elbo elbo_init).
    + unfold bind, print, ret. cbn [fst]. intros [= <- <-].
      right. split; [exact Heta | reflexivity].
    + destruct (print_stream_ this) eqn:Hprint.
      * unfold bind, print, ret. cbn [fst]. intros [= <- <-].
        left. split; reflexivity.
      * apply IH; assumption.
  - unfold bind at 1, print at 1.
    apply IH.
    + apply Hseq. left. reflexivity.
    + intros x Hx. apply Hseq. right. exact Hx.
    + intros b [= <-]. exact Heta.
Qed.

(** X16: when [tune] returns, either it returns one of the five step
    sizes 1, 0.5, 0.1, 0.05 and 0.01 and has reset [variational] to the
    family at [cont_params_]; or, only with a print stream, it returns 0. *)
Theorem tune_returns_a_listed_step_size (fuel : nat) variational w
  (r : double) (v' : Q) :
  fst (tune fuel variational w) = Return (r, v') ->
  (r = dzero /\ print_stream_ this = true)
  \/ (In r [lit 100 100; lit 50 100; lit 10 100; lit 5 100; lit 1 100]
      /\ v' = Q_params (cont_params_ this)).
Proof.
  unfold Advi.tune. cbn [eta_sequence_0]. unfold bind at 1.
  destruct (calc_ELBO variational w) as [[e | x | |] w1]; try discriminate.
  apply tune_loop_result.
  - left. reflexivity.
  - intros x Hx. right. exact Hx.
  - discriminate.
Qed.

End Engine.

Import Scripted.

Lemma calc_ELBO_grad_sizes_run :
  calc_ELBO_grad RNG Q dimension (calc_grad zero_gradient) (advi1 1 false)
    [dzero] [dzero; dzero] flat_world
  = (Throw (invalid_argument "stan::variational::advi::calc_ELBO_grad"
              "Dimension of elbo_grad" 2 "Dimension of variational q" 1),
     flat_world).
Proof.
  apply (calc_ELBO_grad_checks_sizes RNG Q dimension
           (calc_grad zero_gradient) (advi1 1 false) [dzero] [dzero; dzero]
           flat_world).
  discriminate.
Defined.

Lemma sga_rejects_negative_step :
  (dle dzero minus_one = false \/ dgt (lit 1 100) dzero = false \/ 10 <= 0)
  /\ exists name y msg,
      Scripted.stochastic_gradient_ascent flat_log_prob zero_gradient
        (advi_eval 1) [dzero] minus_one (lit 1 100) 10 flat_world
      = (Throw (domain_error
                  "stan::variational::advi.stochastic_gradient_ascent"
                  name y "is " msg), flat_world).
Proof.
  split; [left; reflexivity |].
  unfold Scripted.stochastic_gradient_ascent.
  apply sga_rejects_arguments. left. reflexivity.
Defined.

Lemma sga_undefined_run :
  eval_elbo_ (advi_eval 0) = 0
  /\ dle dzero done = true /\ dgt (lit 1 100) dzero = true
  /\ 0 < 10 <= INT_MAX
  /\ Scripted.stochastic_gradient_ascent flat_log_prob zero_gradient
       (advi_eval 0) [dzero] done (lit 1 100) 10 flat_world
     = (Undefined, flat_world).
Proof.
  split; [reflexivity |]. split; [reflexivity |]. split; [reflexivity |].
  split; [split; [reflexivity | discriminate] |].
  unfold Scripted.stochastic_gradient_ascent.
  apply sga_undefined_without_evaluation_period;
    [reflexivity | reflexivity | reflexivity |].
  split; [reflexivity | discriminate].
Defined.

Lemma tune_five_turns_run :
  print_stream_ (advi1 1 true) = true
  /\ within_fuel
       (fst (Scripted.tune flat_log_prob zero_gradient (advi1 1 true) 5
               [dzero] flat_world)).
Proof.
  split; [reflexivity |].
  unfold Scripted.tune.
  apply tune_makes_at_most_five_turns. reflexivity.
Defined.

(** Estimates 0, 1, 2 and 0: the second step size does better than the
    first, the third does worse, and the second is returned. *)
Lemma tune_listed_step_size_run :
  fst (Scripted.tune identity_log_prob zero_gradient (advi1 1 false) 5
         [dzero] (world0 [dzero; done; dtwo; dzero]))
  = Return (lit 1 2, [dzero])
  /\ ((lit 1 2 = dzero /\ print_stream_ (advi1 1 false) = true)
      \/ (In (lit 1 2)
            [lit 100 100; lit 50 100; lit 10 100; lit 5 100; lit 1 100]
          /\ [dzero] = Q_params (cont_params_ (advi1 1 false)))).
Proof.
  split; [vm_compute; reflexivity |].
  apply (tune_returns_a_listed_step_size RNG Q Q_dim Q_params dimension
           sample entropy (calc_grad zero_gradient) square sqrt Qadd Qscale
           Qdiv Qadd_scalar 1 identity_log_prob (advi1 1 false) 5 [dzero]
           (world0 [dzero; done; dtwo; dzero])).
  vm_compute. reflexivity.
Defined.

End EngineFacts.

(* ================================================================== *)
(** ** ADVI: the window of relative differences *)
(* ================================================================== *)

Module WindowFacts.

Import Advi IEEEFacts.

Lemma push_back_nonempty (cb : circular_buffer) (x : double) :
  (1 <= capacity cb)%nat ->
  exists l, items (push_back cb x) = l ++ [x].
Proof.
  unfold push_back. destruct (capacity cb) as [| c]; [lia |]. intros _.
  destruct (List.length (items cb) <? S c)%nat; eexists; reflexivity.
Qed.

(** [rel_difference_] is a quotient of two magnitudes. *)
Lemma ddiv_dabs_not_negative (a b : double) :
  dlt (ddiv (dabs a) (dabs b)) dzero = false.
Proof.
  destruct a as [sa | sa | | sa ma ea], b as [sb | sb | | sb mb eb];
    try reflexivity.
  change (dabs (S754_finite sa ma ea)) with (S754_finite false ma ea).
  change (dabs (S754_finite sb mb eb)) with (S754_finite false mb eb).
  destruct (ddiv_positive (S754_finite false ma ea) (S754_finite false mb eb)
              eq_refl eq_refl) as [Hnan | Hr].
  - destruct (ddiv _ _); try discriminate. reflexivity.
  - destruct Hr; reflexivity.
Qed.

(** X18: the relative difference is never negative: it is a number
    [>= 0], [+infinity] or NaN. *)
Theorem rel_difference_not_negative (prev curr : double) :
  dlt (rel_difference_ prev curr) dzero = false.
Proof. unfold rel_difference_. apply ddiv_dabs_not_negative. Qed.

(** A finite number divided by itself is 1. *)
Lemma ddiv_same (s : bool) (m : positive) (e : Z) :
  ddiv (S754_finite s m e) (S754_finite s m e) = done.
Proof.
  unfold ddiv, SFdiv. rewrite xorb_nilpotent.
  unfold SFdiv_core_binary.
  rewrite !Z.sub_diag.
  change (Z.min (fexp prec emax 0) 0) with (-53).
  change (0 - -53) with 53.
  cbv iota beta.
  replace (Z.div_eucl (Z.shiftl (Z.pos m) 53) (Z.pos m))
    with (2 ^ 53, 0).
  - unfold new_location, new_location_even, new_location_odd.
    destruct (Z.even (Z.pos m)); vm_compute; reflexivity.
  - rewrite Z.shiftl_mul_pow2 by lia.
    pose proof (Z.div_eucl_eq (Z.pos m * 2 ^ 53) (Z.pos m) ltac:(lia)) as Heq.
    pose proof (Z.mod_pos_bound (Z.pos m * 2 ^ 53) (Z.pos m) ltac:(lia))
      as Hb.
    unfold Z.modulo in Hb.
    destruct (Z.div_eucl (Z.pos m * 2 ^ 53) (Z.pos m)) as [q r].
    assert (Hr : r = 0).
    { assert (Hd : r = Z.pos m * (2 ^ 53 - q)) by lia.
      destruct (Z.lt_trichotomy (2 ^ 53 - q) 0) as [Hn | [Hz | Hp]];
        [| rewrite Hz in Hd; lia |].
      - assert (Z.pos m * (2 ^ 53 - q) <= Z.pos m * (-1))
          by (apply Z.mul_le_mono_nonneg_l; lia). lia.
      - assert (Z.pos m * 1 <= Z.pos m * (2 ^ 53 - q))
          by (apply Z.mul_le_mono_nonneg_l; lia). lia. }
    subst r. f_equal.
    apply (Z.mul_reg_l _ _ (Z.pos m)); lia.
Qed.

(** X19: measured from a finite non-zero value [x], the relative
    difference to 0 is exactly 1; measured from 0, the relative difference
    to [x] is [+infinity]. *)
Theorem rel_difference_at_zero (s : bool) (m : positive) (e : Z) :
  rel_difference_ (S754_finite s m e) dzero = done
  /\ rel_difference_ dzero (S754_finite s m e) = infinity.
Proof.
  split; [| reflexivity].
  unfold rel_difference_.
  change (dabs (dsub dzero (S754_finite s m e))) with (S754_finite false m e).
  change (dabs (S754_finite s m e)) with (S754_finite false m e).
  apply ddiv_same.
Qed.

Lemma dlt_irrefl (x : double) : dlt x x = false.
Proof.
  unfold dlt, SFltb.
  destruct (SFcompare x x) as [[| |] |] eqn:E; try reflexivity.
  pose proof (SFcompare_antisym _ _ _ E) as E'. rewrite E in E'.
  discriminate.
Qed.

Lemma dlt_asym (a b : double) : dlt a b = true -> dlt b a = false.
Proof.
  unfold dlt, SFltb.
  destruct (SFcompare a b) as [[| |] |] eqn:E; try discriminate.
  rewrite (SFcompare_antisym _ _ _ E). reflexivity.
Qed.

(** *** The order of the doubles *)

(** Below a number that is at most a second number, which is at most a
    third, there is nothing that the third is below. *)
Lemma dlt_negtrans (a b c : double) :
  isnan b = false -> dlt b a = false -> dlt c b = false -> dlt c a = false.
Proof.
  unfold dlt, SFltb.
  destruct a as [sa | sa | | sa ma ea], b as [sb | sb | | sb mb eb],
    c as [sc | sc | | sc mc ec]; cbn [SFcompare isnan];
    try discriminate; try reflexivity;
    repeat match goal with s : bool |- _ => destruct s end;
    try discriminate; try reflexivity;
    intros _; rewrite ?Pos.compare_cont_spec; unfold Pos.switch_Eq;
    repeat match goal with
           | |- context [Z.compare ?x ?y] => destruct (Z.compare_spec x y)
           | |- context [Pos.compare ?x ?y] => destruct (Pos.compare_spec x y)
           end;
    cbn [CompOpp]; try discriminate; try reflexivity; intros _ _;
    try lia; subst; try lia.
Qed.

(** *** The insertion sort of the runs meets the contract *)

Lemma insert_sorted_perm (x : double) (l : list double) :
  Permutation (Scripted.insert_sorted x l) (x :: l).
Proof.
  induction l as [| y l IH]; [apply Permutation_refl |].
  cbn [Scripted.insert_sorted]. destruct (dlt y x); [| apply Permutation_refl].
  apply perm_trans with (y :: x :: l); [apply perm_skip, IH | apply perm_swap].
Qed.

Lemma sort_perm (v : list double) : Permutation (Scripted.sort v) v.
Proof.
  induction v as [| x v IH]; [apply perm_nil |].
  cbn [Scripted.sort fold_right]. fold (Scripted.sort v).
  apply perm_trans with (x :: Scripted.sort v);
    [apply insert_sorted_perm | apply perm_skip, IH].
Qed.

Lemma insert_sorted_sorted (x : double) (l : list double) :
  Forall (fun y => isnan y = false) l ->
  StronglySorted (fun a y => dlt y a = false) l ->
  StronglySorted (fun a y => dlt y a = false) (Scripted.insert_sorted x l).
Proof.
  induction l as [| y l IH]; intros Hnan Hs.
  - cbn. constructor; constructor.
  - cbn [Scripted.insert_sorted].
    apply Forall_cons_iff in Hnan as [Hy Hnan].
    apply StronglySorted_inv in Hs as [Hs Hall].
    destruct (dlt y x) eqn:E.
    + constructor; [apply IH; assumption |].
      apply (Permutation_Forall (Permutation_sym (insert_sorted_perm x l))).
      constructor; [apply dlt_asym; exact E | exact Hall].
    + constructor; [constructor; assumption |].
      constructor; [exact E |].
      apply Forall_forall. intros z Hz.
      apply (dlt_negtrans x y z Hy E).
      exact (proj1 (Forall_forall _ _) Hall z Hz).
Qed.

Lemma sort_sorted (v : list double) :
  Forall (fun y => isnan y = false) v ->
  StronglySorted (fun a y => dlt y a = false) (Scripted.sort v).
Proof.
  induction v as [| x v IH]; intros Hnan; [constructor |].
  apply Forall_cons_iff in Hnan as [_ Hnan].
  cbn [Scripted.sort fold_right]. fold (Scripted.sort v).
  apply insert_sorted_sorted; [| apply IH; exact Hnan].
  apply (Permutation_Forall (Permutation_sym (sort_perm v))). exact Hnan.
Qed.

Lemma sorted_nth (s : list double) :
  StronglySorted (fun a y => dlt y a = false) s ->
  forall i j : nat, (i <= j)%nat -> (j < List.length s)%nat ->
    dlt (nth j s dzero) (nth i s dzero) = false.
Proof.
  induction 1 as [| x s Hs IH Hall]; intros i j Hij Hj;
    [cbn in Hj; lia |].
  destruct j as [| j].
  - assert (i = 0)%nat as -> by lia. apply dlt_irrefl.
  - destruct i as [| i].
    + cbn [nth]. apply (proj1 (Forall_forall _ _) Hall).
      apply nth_In. cbn in Hj. lia.
    + cbn [nth]. apply IH; cbn in Hj; lia.
Qed.

Lemma no_nan_Forall (v : list double) :
  existsb isnan v = false -> Forall (fun y => isnan y = false) v.
Proof.
  induction v as [| x v IH]; [constructor |].
  cbn [existsb]. intros H. apply orb_false_iff in H as [Hx Hv].
  constructor; [exact Hx | apply IH; exact Hv].
Qed.

Lemma none_below_In (v : list double) :
  forallb (fun x => forallb (fun y => negb (dlt x y)) v) v = true ->
  forall x y, In x v -> In y v -> dlt x y = false.
Proof.
  intros H x y Hx Hy.
  rewrite forallb_forall in H. specialize (H x Hx).
  rewrite forallb_forall in H. specialize (H y Hy).
  apply negb_true_iff in H. exact H.
Qed.

(** The insertion sort is a [std::nth_element]. *)
Lemma sort_meets_contract : nth_element_contract Scripted.nth_element.
Proof.
  intros v n Hswo Hn. unfold Scripted.nth_element.
  split; [apply sort_perm |].
  intros i j Hi Hj Hlen.
  assert (Hls : List.length (Scripted.sort v) = List.length v)
    by apply Permutation_length, sort_perm.
  unfold strict_weak_order in Hswo.
  apply orb_true_iff in Hswo as [Hnan | Hnone].
  - apply negb_true_iff in Hnan.
    apply sorted_nth; [apply sort_sorted, no_nan_Forall, Hnan | lia | lia].
  - apply (none_below_In v Hnone);
      apply (Permutation_in _ (sort_perm v)), nth_In; lia.
Qed.

(** *** The median *)

Lemma filter_length_perm (f : double -> bool) (l l' : list double) :
  Permutation l l' ->
  List.length (filter f l) = List.length (filter f l').
Proof.
  induction 1 as [| x l l' _ IH | x y l | l l' l'' _ IH1 _ IH2];
    cbn [filter]; try reflexivity.
  - destruct (f x); cbn [List.length]; rewrite IH; reflexivity.
  - destruct (f x), (f y); reflexivity.
  - rewrite IH1. exact IH2.
Qed.

Lemma filter_none (f : double -> bool) (l : list double) :
  (forall k : nat, (k < List.length l)%nat -> f (nth k l dzero) = false) ->
  filter f l = [].
Proof.
  induction l as [| x l IH]; intros H; [reflexivity |].
  pose proof (H 0%nat ltac:(cbn; lia)) as H0. cbn [nth] in H0.
  cbn [filter]. rewrite H0.
  apply IH. intros k Hk. apply (H (S k)). cbn. lia.
Qed.

Lemma filter_length_bound (f : double -> bool) (l : list double) :
  (List.length (filter f l) <= List.length l)%nat.
Proof.
  induction l as [| x l IH]; [apply Nat.le_refl |].
  cbn [filter]. destruct (f x); cbn [List.length]; lia.
Qed.

Lemma nth_skipn_shift (l : list double) (n k : nat) :
  nth k (skipn n l) dzero = nth (n + k) l dzero.
Proof.
  revert l. induction n as [| n IH]; intros l; [reflexivity |].
  destruct l as [| x l]; [destruct k; reflexivity |].
  cbn [skipn Nat.add nth]. apply IH.
Qed.

Lemma nth_firstn_below (l : list double) (n k : nat) :
  (k < n)%nat -> nth k (firstn n l) dzero = nth k l dzero.
Proof.
  revert l k. induction n as [| n IH]; intros l k Hk; [lia |].
  destruct l as [| x l]; [destruct k; reflexivity |].
  destruct k as [| k]; [reflexivity |].
  cbn [firstn nth]. apply IH. lia.
Qed.

(** Few items pass a test that fails from index [n] on. *)
Lemma filter_fails_from (f : double -> bool) (l : list double) (n : nat) :
  (forall j : nat, (n <= j)%nat -> (j < List.length l)%nat ->
                   f (nth j l dzero) = false) ->
  (List.length (filter f l) <= n)%nat.
Proof.
  intros H. rewrite <- (firstn_skipn n l), filter_app, length_app.
  rewrite (filter_none f (skipn n l)).
  - cbn [List.length]. rewrite Nat.add_0_r.
    apply Nat.le_trans with (1 := filter_length_bound f (firstn n l)).
    apply firstn_le_length.
  - intros k Hk. rewrite nth_skipn_shift. rewrite length_skipn in Hk.
    apply H; lia.
Qed.

(** Few items pass a test that fails up to index [n]. *)
Lemma filter_fails_upto (f : double -> bool) (l : list double) (n : nat) :
  (forall i : nat, (i <= n)%nat -> (i < List.length l)%nat ->
                   f (nth i l dzero) = false) ->
  (List.length (filter f l) <= List.length l - 1 - n)%nat.
Proof.
  intros H. rewrite <- (firstn_skipn (S n) l) at 1.
  rewrite filter_app, length_app.
  rewrite (filter_none f (firstn (S n) l)).
  - cbn [List.length Nat.add].
    apply Nat.le_trans with (1 := filter_length_bound f (skipn (S n) l)).
    rewrite length_skipn. lia.
  - intros k Hk. rewrite length_firstn in Hk.
    rewrite nth_firstn_below by lia. apply H; lia.
Qed.

Section Median.

Variable nth_element : list double -> nat -> list double.

Local Abbreviation circ_buff_median_ := (circ_buff_median_ nth_element).
Local Abbreviation nth_element_contract :=
  (nth_element_contract nth_element).

Lemma circ_buff_median_defined (cb : circular_buffer) :
  nth_element_contract ->
  items cb <> [] -> strict_weak_order (items cb) = true ->
  exists x, circ_buff_median_ cb = Some x /\ In x (items cb).
Proof.
  intros Hc Hne Hswo. unfold Advi.circ_buff_median_. rewrite Hswo.
  assert (Hn : (List.length (items cb) / 2 < List.length (items cb))%nat).
  { destruct (items cb) as [| y l]; [contradiction |].
    apply Nat.div_lt; cbn; lia. }
  rewrite (proj2 (Nat.ltb_lt _ _) Hn). cbn [andb].
  destruct (Hc (items cb) _ Hswo Hn) as [Hperm _].
  destruct (nth_error (nth_element (items cb) _) _) as [x |] eqn:E.
  - exists x. split; [reflexivity |].
    apply (Permutation_in _ Hperm). eapply nth_error_In. exact E.
  - apply nth_error_None in E.
    rewrite (Permutation_length Hperm) in E. lia.
Qed.

(** X17: for every [std::nth_element] that keeps the contract of the
    C++ standard, [circ_buff_median_] has undefined behaviour exactly
    when the buffer is empty or [<] is not a strict weak order on its
    items (a NaN beside two numbers that differ).  Otherwise it returns
    an item of the buffer that is an upper median: with [n = size / 2],
    at most [n] items are below it and at most [size - 1 - n] items are
    above it. *)
Theorem circ_buff_median_is_a_median (cb : circular_buffer) :
  nth_element_contract ->
  (circ_buff_median_ cb = None
   <-> items cb = [] \/ strict_weak_order (items cb) = false)
  /\ (forall x,
        circ_buff_median_ cb = Some x ->
        In x (items cb)
        /\ (List.length (filter (fun y => dlt y x) (items cb))
            <= List.length (items cb) / 2)%nat
        /\ (List.length (filter (fun y => dlt x y) (items cb))
            <= List.length (items cb) - 1 - List.length (items cb) / 2)%nat).
Proof.
  intros Hc. split; [split |].
  - intros Hnone.
    destruct (items cb) as [| y l] eqn:E; [left; reflexivity |]. right.
    destruct (strict_weak_order (y :: l)) eqn:Hswo; [| reflexivity].
    destruct (circ_buff_median_defined cb Hc) as [x [Hx _]];
      [rewrite E; discriminate | rewrite E; exact Hswo | congruence].
  - unfold Advi.circ_buff_median_. intros [-> | ->]; reflexivity.
  - unfold Advi.circ_buff_median_. intros x Hx.
    destruct (strict_weak_order (items cb)) eqn:Hswo; [| discriminate].
    destruct (Nat.ltb_spec (List.length (items cb) / 2)
                (List.length (items cb))) as [Hn | Hn]; [| discriminate].
    cbn [andb] in Hx.
    destruct (Hc (items cb) _ Hswo Hn) as [Hperm Hpart].
    set (n := (List.length (items cb) / 2)%nat) in *.
    set (v' := nth_element (items cb) n) in *.
    assert (Hlen : List.length v' = List.length (items cb))
      by exact (Permutation_length Hperm).
    assert (Hxn : nth n v' dzero = x) by (apply nth_error_nth; exact Hx).
    split; [| split].
    + apply (Permutation_in _ Hperm). eapply nth_error_In. exact Hx.
    + rewrite <- (filter_length_perm _ _ _ Hperm).
      apply filter_fails_from. intros j Hj Hjl.
      rewrite <- Hxn. apply Hpart; lia.
    + rewrite <- (filter_length_perm _ _ _ Hperm), <- Hlen.
      apply filter_fails_upto. intros i Hi Hil.
      rewrite <- Hxn. apply Hpart; lia.
Qed.

End Median.

Section Check.

Variable RNG : Type.
Variable Q : Type.
Variable sample : Q -> RNG -> vec * RNG.
Variable entropy : Q -> double.
Variable log_prob : vec -> exn + double.
Variable nth_element : list double -> nat -> list double.
Variable this : advi.

Local Abbreviation calc_ELBO := (calc_ELBO RNG Q sample entropy log_prob this).
Local Abbreviation convergence_check :=
  (convergence_check RNG Q sample entropy log_prob nth_element this).

Implicit Types (w : world RNG) (variational : Q) (t : tracking).

(** X20: for every [std::nth_element] that keeps the contract of the
    C++ standard: with a window of capacity at least 1 that, once the
    new relative difference is pushed, holds items on which [<] is a
    strict weak order (any window without NaN is one), a convergence
    check whose ELBO evaluation returns [e] returns too, without drawing
    again.  It records [e] and the ELBO of the check before, keeps as
    best a value that is below neither [e] nor the best so far, and
    reports as median one of the items of the window, whose newest item
    is the relative difference just computed. *)
Theorem convergence_check_returns (tol_rel_obj : double) (iter_main : Z)
  variational t w (e : double) w1 :
  nth_element_contract nth_element ->
  (1 <= capacity (elbo_diff t))%nat ->
  calc_ELBO variational w = (Return e, w1) ->
  strict_weak_order
    (items (push_back (elbo_diff t) (rel_difference_ e (elbo t)))) = true ->
  exists t' w',
    convergence_check tol_rel_obj iter_main variational t w = (Return t', w')
    /\ elbo t' = e /\ elbo_prev t' = elbo t
    /\ dlt (elbo_best t') e = false
    /\ dlt (elbo_best t') (elbo_best t) = false
    /\ In (delta_elbo_med t') (items (elbo_diff t'))
    /\ (exists l, items (elbo_diff t') = l ++ [delta_elbo t'])
    /\ rng RNG w' = rng RNG w1.
Proof.
  intros Hc Hcap Hcalc Hswo.
  destruct (push_back_nonempty (elbo_diff t) (rel_difference_ e (elbo t))
              Hcap) as [l Hl].
  destruct (circ_buff_median_defined nth_element
              (push_back (elbo_diff t) (rel_difference_ e (elbo t))) Hc)
    as [med [Hmed Hin]];
    [rewrite Hl; destruct l; discriminate | exact Hswo |].
  assert (Hbest :
            dlt (if dgt e (elbo_best t) then e else elbo_best t) e = false
            /\ dlt (if dgt e (elbo_best t) then e else elbo_best t)
                 (elbo_best t) = false).
  { destruct (dgt e (elbo_best t)) eqn:Hgt.
    - split; [apply dlt_irrefl | apply dlt_asym; exact Hgt].
    - split; [exact Hgt | apply dlt_irrefl]. }
  destruct Hbest as [Hb1 Hb2].
  unfold Advi.convergence_check, bind. rewrite Hcalc.
  unfold of_option. rewrite Hmed.
  remember (if dgt e (elbo_best t) then e else elbo_best t) as best.
  unfold ret, print, write_diag, printed.
  destruct (print_stream_ this), (diag_stream_ this);
    repeat match goal with
           | |- context [if ?b then _ else _] => destruct b
           end;
    eexists; eexists; (split; [reflexivity |]);
    cbn [elbo elbo_prev elbo_best delta_elbo_med elbo_diff delta_elbo rng];
    (repeat split; try assumption; exists l; exact Hl).
Qed.

End Check.

Import Scripted.

(** The median of [3, 1, 2] is 2; on [inf, NaN, 1] the call is
    undefined; the only item of [NaN] is its median. *)
Lemma circ_buff_median_run :
  nth_element_contract nth_element
  /\ circ_buff_median_ nth_element (mk_cb 4 [of_int 3; done; dtwo])
     = Some dtwo
  /\ (In dtwo (items (mk_cb 4 [of_int 3; done; dtwo]))
      /\ (List.length (filter (fun y => dlt y dtwo)
                         (items (mk_cb 4 [of_int 3; done; dtwo])))
          <= List.length (items (mk_cb 4 [of_int 3; done; dtwo])) / 2)%nat
      /\ (List.length (filter (fun y => dlt dtwo y)
                         (items (mk_cb 4 [of_int 3; done; dtwo])))
          <= List.length (items (mk_cb 4 [of_int 3; done; dtwo])) - 1
             - List.length (items (mk_cb 4 [of_int 3; done; dtwo])) / 2)%nat)
  /\ circ_buff_median_ nth_element (mk_cb 4 [infinity; NaN; done]) = None
  /\ circ_buff_median_ nth_element (mk_cb 4 [NaN]) = Some NaN.
Proof.
  split; [exact sort_meets_contract |].
  split; [reflexivity |].
  split;
    [exact (proj2 (circ_buff_median_is_a_median nth_element
                     (mk_cb 4 [of_int 3; done; dtwo]) sort_meets_contract)
              dtwo eq_refl) |].
  split; [| reflexivity].
  apply (proj1 (circ_buff_median_is_a_median nth_element
                  (mk_cb 4 [infinity; NaN; done]) sort_meets_contract)).
  right. reflexivity.
Defined.

Lemma convergence_check_run :
  nth_element_contract nth_element
  /\ (1 <= capacity (elbo_diff (tracking_at (of_int (-4)))))%nat
  /\ Scripted.calc_ELBO identity_log_prob (advi1 1 false) [of_int (-2)]
       (world0 [])
     = (Return (of_int (-2)), world0 [])
  /\ strict_weak_order
       (items (push_back (elbo_diff (tracking_at (of_int (-4))))
                 (rel_difference_ (of_int (-2))
                    (elbo (tracking_at (of_int (-4))))))) = true
  /\ exists t' w',
      Scripted.convergence_check identity_log_prob (advi1 1 false)
        (lit 1 100) 2 [of_int (-2)] (tracking_at (of_int (-4))) (world0 [])
      = (Return t', w')
      /\ elbo t' = of_int (-2) /\ elbo_prev t' = elbo (tracking_at (of_int (-4)))
      /\ dlt (elbo_best t') (of_int (-2)) = false
      /\ dlt (elbo_best t') (elbo_best (tracking_at (of_int (-4)))) = false
      /\ In (delta_elbo_med t') (items (elbo_diff t'))
      /\ (exists l, items (elbo_diff t') = l ++ [delta_elbo t'])
      /\ rng RNG w' = rng RNG (world0 []).
Proof.
  split; [exact sort_meets_contract |].
  split; [repeat constructor |]. split; [reflexivity |].
  split; [reflexivity |].
  unfold Scripted.convergence_check.
  apply convergence_check_returns;
    [exact sort_meets_contract | repeat constructor | reflexivity
    | reflexivity].
Defined.

End WindowFacts.
